(** * bpnet: the SWAG training callback and the modisco command-line drivers

    A shallow embedding of [bpnet/swag_callback.py] and of the parts of
    [bpnet/cli/modisco.py] that carry a state or error contract, together
    with the properties the specification states about them.

    Conventions of the embedding.
    - Python [int] is [Z]; Python [float] and the entries of a numpy array
      are exact rationals ([Qc]): rounding is not modelled, so every
      equation below is an equation of the real-number arithmetic the code
      denotes.
    - A Python exception is a value of [exn]; code that can raise lives in
      [result] (no state) or in [M S] (state [S] threaded through, the
      state reached when the exception was raised is kept).
    - Files are kept structured: the text [json.dump] writes is represented
      by the JSON value it encodes. *)

From Stdlib Require Import ZArith QArith Qcanon Lia Ascii.
From stdpp Require Import gmap strings list.

#[local] Open Scope Z_scope.

(** ** Exceptions and the two monads *)

Inductive exn : Type :=
  | ValueError
  | AttributeError
  | AssertionError
  | FileNotFoundError
  | PermissionError
  | IsADirectoryError
  | FileExistsError.

#[global] Instance exn_eq_dec : EqDecision exn.
Proof. solve_decision. Defined.


Definition result (A : Type) : Type := exn + A.

Definition raise {A : Type} (e : exn) : result A := inl e.

#[global] Instance result_ret : MRet result := fun A x => inr x.
#[global] Instance result_bind : MBind result :=
  fun A B f m => match m with inl e => inl e | inr x => f x end.
#[global] Instance result_fmap : FMap result :=
  fun A B f m => match m with inl e => inl e | inr x => inr (f x) end.

(** State and exceptions: a computation returns the state it reached and
    either the exception it raised there or its value. *)
Definition M (S A : Type) : Type := S -> S * result A.

#[global] Instance M_ret {S} : MRet (M S) := fun A x s => (s, inr x).
#[global] Instance M_bind {S} : MBind (M S) :=
  fun A B f m s =>
    match m s with
    | (s', inl e) => (s', inl e)
    | (s', inr x) => f x s'
    end.

Definition get {S} : M S S := fun s => (s, inr s).
Definition throw {S A} (e : exn) : M S A := fun s => (s, inl e).
Definition lift {S A} (r : result A) : M S A := fun s => (s, r).

(** ** bpnet/swag_callback.py *)

Module Swag.

#[local] Open Scope Qc_scope.

(** *** Values held in the callback's lists

    [self.mean] and [self.moments] start as lists of Python floats and
    become lists of numpy arrays once weights have been averaged into them.
    An array is modelled flattened to rank one; [get_weights()] returns
    arrays only. *)

Abbreviation ndarray := (list Qc).

Inductive tensor : Type :=
  | PyFloat (x : Qc)
  | NdArray (a : ndarray).

#[global] Instance tensor_eq_dec : EqDecision tensor.
Proof. solve_decision. Defined.

(** numpy's elementwise binary operation on two rank-one arrays: equal
    lengths combine entry by entry, a length-one operand is stretched, any
    other pair of lengths raises [ValueError]. *)
Definition broadcast (f : Qc -> Qc -> Qc) (xs ys : ndarray) : result ndarray :=
  if decide (length xs = length ys) then mret (zip_with f xs ys)
  else match xs, ys with
       | [x], _ => mret (f x <$> ys)
       | _, [y] => mret ((fun a => f a y) <$> xs)
       | _, _ => raise ValueError
       end.

Definition tbinop (f : Qc -> Qc -> Qc) (a b : tensor) : result tensor :=
  match a, b with
  | PyFloat x, PyFloat y => mret (PyFloat (f x y))
  | PyFloat x, NdArray ys => mret (NdArray (f x <$> ys))
  | NdArray xs, PyFloat y => mret (NdArray ((fun a => f a y) <$> xs))
  | NdArray xs, NdArray ys => NdArray <$> broadcast f xs ys
  end.

Definition tmap (f : Qc -> Qc) (a : tensor) : tensor :=
  match a with
  | PyFloat x => PyFloat (f x)
  | NdArray xs => NdArray (f <$> xs)
  end.

(** [a + b] and [a - b] *)
Definition tadd : tensor -> tensor -> result tensor := tbinop Qcplus.
Definition tsub : tensor -> tensor -> result tensor := tbinop Qcminus.
(** [n * a] for a Python int [n] *)
Definition tscale (n : Z) : tensor -> tensor := tmap (Qcmult (Qc_of_Z n)).
(** [a / k] for a Python int [k]; the callback only divides by
    [epoch - start + 1] under the guard [epoch >= start], so [k] is
    positive wherever this is called. *)
Definition tdiv (a : tensor) (k : Z) : tensor := tmap (fun x => x / Qc_of_Z k) a.
(** [a ** 2] *)
Definition tsquare : tensor -> tensor := tmap (fun x => x * x).

(** *** The callback object *)

Record SWAGCallback : Type := mkSWAG {
  mean : list tensor;
  moments : list tensor;
  rank : Z;
  start : Z;
  output_prefix : string;
  cols : list (list tensor)
}.

Definition set_mean (v : list tensor) : M SWAGCallback unit :=
  fun self => (mkSWAG v (moments self) (rank self) (start self)
                 (output_prefix self) (cols self), inr tt).
Definition set_moments (v : list tensor) : M SWAGCallback unit :=
  fun self => (mkSWAG (mean self) v (rank self) (start self)
                 (output_prefix self) (cols self), inr tt).
Definition set_cols (v : list (list tensor)) : M SWAGCallback unit :=
  fun self => (mkSWAG (mean self) (moments self) (rank self) (start self)
                 (output_prefix self) v, inr tt).

(** [__init__(self, output_prefix, start=160, rank=139)] *)
Definition capacity : nat := 2000.

Definition init (output_prefix : string) (start rank : Z) : SWAGCallback :=
  {| mean := replicate capacity (PyFloat 0);
     moments := replicate capacity (PyFloat 0);
     rank := rank;
     start := start;
     output_prefix := output_prefix;
     cols := [] |}.

Definition default_start : Z := 160.
Definition default_rank : Z := 139.

(** The bodies of the three comprehensions of [on_epoch_end], with
    [n = epoch - self.start]. *)
Definition mean_step (n : Z) (prev : tensor) (curr : ndarray) : result tensor :=
  s ← tadd (tscale n prev) (NdArray curr); mret (tdiv s (n + 1)).

Definition moment_step (n : Z) (prev : tensor) (curr : ndarray) : result tensor :=
  s ← tadd (tscale n prev) (tsquare (NdArray curr)); mret (tdiv s (n + 1)).

Definition deviation (mean : tensor) (curr : ndarray) : result tensor :=
  tsub (NdArray curr) mean.

(** [on_epoch_end(self, epoch, logs=None)]; [weights] is what
    [self.model.get_weights()] returns during the call. *)
Definition on_epoch_end (epoch : Z) (weights : list ndarray) : M SWAGCallback unit :=
  self ← get;
  (if bool_decide (epoch >= start self)%Z then
     let n := (epoch - start self)%Z in
     mean' ← lift (mapM (fun '(prev, curr) => mean_step n prev curr)
                     (zip (mean self) weights));
     set_mean mean';;
     moments' ← lift (mapM (fun '(prev, (_, curr)) => moment_step n prev curr)
                        (zip (moments self) (zip mean' weights)));
     set_moments moments';;
     col ← lift (mapM (fun '(mean, curr) => deviation mean curr)
                   (zip mean' weights));
     set_cols (cols self ++ [col])
   else mret tt);;
  self ← get;
  if bool_decide (Z.of_nat (length (cols self)) > rank self)%Z
  then set_cols (drop 1 (cols self))
  else mret tt.

(** *** Serialization *)

#[local] Unset Elimination Schemes.
Inductive json : Type :=
  | JNumber (q : Qc)
  | JArray (items : list json).
#[local] Set Elimination Schemes.

(** [p.tolist()]: a method of numpy arrays, absent from Python floats. *)
Definition tolist (p : tensor) : result json :=
  match p with
  | PyFloat _ => raise AttributeError
  | NdArray xs => mret (JArray (JNumber <$> xs))
  end.

(** The files the callback can see: their contents by name, and the names
    for which [open(name, 'w+')] fails (missing or unwritable directory). *)
Record filestore : Type := mkStore {
  files : gmap string json;
  denied : gset string
}.

(** [json.dump(obj, open(path, 'w+'))], [obj] already evaluated: the file
    is created or replaced; where [open] fails its [OSError] is raised
    ([PermissionError] stands for whichever it is) and nothing is written. *)
Definition json_dump (obj : json) (path : string) : M filestore unit :=
  fun fs =>
    if bool_decide (path ∈ denied fs) then (fs, inl PermissionError)
    else (mkStore (<[path := obj]> (files fs)) (denied fs), inr tt).

Definition diagonal (self : SWAGCallback) : result (list tensor) :=
  mapM (fun '(moment, mean) => tsub moment (tsquare mean))
    (zip (moments self) (mean self)).

Definition mean_path (self : SWAGCallback) : string := output_prefix self +:+ "_mean.json".
Definition diag_path (self : SWAGCallback) : string := output_prefix self +:+ "_diag.json".
Definition cols_path (self : SWAGCallback) : string := output_prefix self +:+ "_cols.json".

(** [on_train_end(self, logs=None)] *)
Definition on_train_end (self : SWAGCallback) : M filestore unit :=
  m ← lift (mapM tolist (mean self));
  json_dump (JArray m) (mean_path self);;
  diag ← lift (diagonal self);
  d ← lift (mapM tolist diag);
  json_dump (JArray d) (diag_path self);;
  c ← lift (mapM (fun col => JArray <$> mapM tolist col) (cols self));
  json_dump (JArray c) (cols_path self).

(** *** Running the callback over a training loop *)

(** The training loop calls the hook once per epoch; [calls] lists the
    epoch index and the weights at each call. *)
Definition on_epochs (calls : list (Z * list ndarray)) : M SWAGCallback unit :=
  mapM (fun '(epoch, weights) => on_epoch_end epoch weights) calls;; mret tt.

(** The effect of the last statement of [on_epoch_end]. *)
Definition evict (self : SWAGCallback) : SWAGCallback :=
  if bool_decide (Z.of_nat (length (cols self)) > rank self)%Z
  then mkSWAG (mean self) (moments self) (rank self) (start self)
         (output_prefix self) (drop 1 (cols self))
  else self.

(** Entry [j] of a tensor; a Python float stands for every entry. *)
Definition entry (t : tensor) (j : nat) : option Qc :=
  match t with
  | PyFloat x => Some x
  | NdArray a => a !! j
  end.

(** A stored tensor can be combined with a weight array: it is a Python
    float or an array of the same size. *)
Definition fits (t : tensor) (a : ndarray) : bool :=
  match t with
  | PyFloat _ => true
  | NdArray p => bool_decide (length p = length a)
  end.

Definition all_fit (ts : list tensor) (weights : list ndarray) : bool :=
  forallb (fun '(t, a) => fits t a) (zip ts weights).

Definition compatible (self : SWAGCallback) (weights : list ndarray) : bool :=
  all_fit (mean self) weights && all_fit (moments self) weights.

(** The deviation snapshot a call appends: the incoming weights minus the
    running mean [mean'] the same call has just stored. *)
Definition snapshot (mean' : list tensor) (weights : list ndarray) : list tensor :=
  match mapM (fun '(mean, curr) => deviation mean curr) (zip mean' weights) with
  | inr col => col
  | inl _ => []
  end.



(** The sizes of the arrays of one snapshot; a model keeps them for the
    whole training run. *)
Definition shapes (weights : list ndarray) : list nat := length <$> weights.


Definition is_array (t : tensor) : bool :=
  match t with PyFloat _ => false | NdArray _ => true end.


(** The three JSON values [on_train_end] has to write. *)
Definition mean_json (self : SWAGCallback) : result json :=
  JArray <$> mapM tolist (mean self).
Definition diag_json (self : SWAGCallback) : result json :=
  diag ← diagonal self; JArray <$> mapM tolist diag.
Definition cols_json (self : SWAGCallback) : result json :=
  JArray <$> mapM (fun col => JArray <$> mapM tolist col) (cols self).




(** What the last statement of [on_epoch_end] does to the buffer. *)
Definition evict_cols (rank : Z) (l : list (list tensor)) : list (list tensor) :=
  if bool_decide (Z.of_nat (length l) > rank)%Z then drop 1 l else l.

(** The store after [name] has been written. *)
Definition write_file (path : string) (obj : json) (fs : filestore) : filestore :=
  mkStore (<[path := obj]> (files fs)) (denied fs).

End Swag.

(** ** bpnet/cli/modisco.py *)

Module Modisco.

(** *** Strings *)

(** [s.split(sep)] for a one-character separator. *)
Fixpoint split (sep : Ascii.ascii) (s : string) : list string :=
  match s with
  | EmptyString => [EmptyString]
  | String c s' =>
      if Ascii.eqb c sep then EmptyString :: split sep s'
      else match split sep s' with
           | hd :: tl => String c hd :: tl
           | [] => [String c EmptyString]
           end
  end.

(** [c in s] *)
Fixpoint contains (c : Ascii.ascii) (s : string) : bool :=
  match s with
  | EmptyString => false
  | String c' s' => Ascii.eqb c' c || contains c s'
  end.

(** *** The arguments of [bpnet_modisco_run] *)

(** A path is the list of its components below the root; paths are taken
    absolute, so [os.path.abspath] and [str] leave them as they are and
    [os.path.join] and [Path./] append components. *)
Abbreviation path := (list string).

Record run_args : Type := mkArgs {
  contrib_file : path;
  output_dir : path;
  null_contrib_file : option path;
  premade : string;
  config : option path;
  override : string;
  contrib_wildcard : string;
  only_task_regions : bool;
  filter_npy : option path;
  exclude_chr : string;
  num_workers : Z;
  gpu : option Z;
  memfrac_gpu : Qc;
  overwrite : bool
}.

(** *** Files, directories and the process environment *)

(** What a file holds: raw text (empty for a touched file or a marker), or
    the JSON dictionary of hyper-parameters [bpnet_modisco_run] saves, kept
    as the arguments it was built from and the [output_filter_npy] path. *)
Inductive content : Type :=
  | Bytes (text : string)
  | KwargsJson (kwargs : run_args) (output_filter_npy : path).

Inductive node : Type :=
  | File (c : content)
  | Dir.

(** [nodes] maps every existing path to what is there; the root [[]] is a
    directory. Creating an entry inside a directory of [readonly] fails. *)
Record filesystem : Type := mkFS {
  nodes : gmap path node;
  readonly : gset path
}.

Definition lookup_node (fsys : filesystem) (p : path) : option node :=
  match p with
  | [] => Some Dir
  | _ => nodes fsys !! p
  end.

Definition dirname (p : path) : path := take (length p - 1) p.

Definition is_file (fsys : filesystem) (p : path) : bool :=
  match lookup_node fsys p with Some (File _) => true | _ => false end.

Definition is_dir (fsys : filesystem) (p : path) : bool :=
  match lookup_node fsys p with Some Dir => true | _ => false end.

(** [os.path.exists(p)] *)
Definition path_exists (fsys : filesystem) (p : path) : bool :=
  match lookup_node fsys p with Some _ => true | None => false end.

Definition set_node (p : path) (n : node) (fsys : filesystem) : filesystem :=
  mkFS (<[p := n]> (nodes fsys)) (readonly fsys).

(** Can a new entry [p] be created: its directory has to exist and to be
    writable. *)
Definition create_check (fsys : filesystem) (p : path) : result unit :=
  match p with
  | [] => raise IsADirectoryError
  | _ =>
      match lookup_node fsys (dirname p) with
      | Some Dir =>
          if bool_decide (dirname p ∈ readonly fsys) then raise PermissionError
          else mret tt
      | _ => raise FileNotFoundError
      end
  end.

(** [open(p, 'a').close()]: an existing file is left as it is, a missing
    one is created empty. *)
Definition touch_fs (p : path) (fsys : filesystem) : result filesystem :=
  match lookup_node fsys p with
  | Some (File _) => mret fsys
  | Some Dir => raise IsADirectoryError
  | None => create_check fsys p;; mret (set_node p (File (Bytes EmptyString)) fsys)
  end.

(** [open(p, 'w')] followed by writing [c]: an existing file is replaced. *)
Definition write_fs (p : path) (c : content) (fsys : filesystem) : result filesystem :=
  match lookup_node fsys p with
  | Some (File _) => mret (set_node p (File c) fsys)
  | Some Dir => raise IsADirectoryError
  | None => create_check fsys p;; mret (set_node p (File c) fsys)
  end.

(** [os.makedirs(p, exist_ok=True)] *)
Fixpoint makedirs_from (above todo : path) (fsys : filesystem) : result filesystem :=
  match todo with
  | [] => mret fsys
  | d :: todo' =>
      let p := above ++ [d] in
      match lookup_node fsys p with
      | Some Dir => makedirs_from p todo' fsys
      | Some (File _) => raise FileExistsError
      | None =>
          if bool_decide (above ∈ readonly fsys) then raise PermissionError
          else makedirs_from p todo' (set_node p Dir fsys)
      end
  end.

Definition makedirs (p : path) (fsys : filesystem) : result filesystem :=
  makedirs_from [] p fsys.

(** The commands [modisco_report_all] can run. *)
Inductive command : Type :=
  | modisco_plot
  | modisco_report
  | modisco_table
  | modisco_cluster_patterns
  | modisco_enrich_patterns
  | modisco_centroid_seqlet_matches
  | cwm_scan
  | modisco2bed.

#[global] Instance command_eq_dec : EqDecision command.
Proof. solve_decision. Defined.

Definition command_name (c : command) : string :=
  match c with
  | modisco_plot => "modisco_plot"
  | modisco_report => "modisco_report"
  | modisco_table => "modisco_table"
  | modisco_cluster_patterns => "modisco_cluster_patterns"
  | modisco_enrich_patterns => "modisco_enrich_patterns"
  | modisco_centroid_seqlet_matches => "modisco_centroid_seqlet_matches"
  | cwm_scan => "cwm_scan"
  | modisco2bed => "modisco2bed"
  end.

(** Everything the two drivers act on: the file system, [os.environ], and
    the log of the report commands started so far. *)
Record world : Type := mkWorld {
  fs : filesystem;
  environ : gmap string string;
  executed : list command
}.

Definition on_fs (f : filesystem -> result filesystem) : M world unit :=
  fun w =>
    match f (fs w) with
    | inl e => (w, inl e)
    | inr fsys => (mkWorld fsys (environ w) (executed w), inr tt)
    end.

Definition setenv (k v : string) : M world unit :=
  fun w => (mkWorld (fs w) (<[k := v]> (environ w)) (executed w), inr tt).

Definition touch (p : path) : M world unit := on_fs (touch_fs p).

(** [concise.utils.helper.write_json(obj, p)] for the hyper-parameter
    dictionary. *)
Definition write_json (kwargs : run_args) (output_filter_npy : path) (p : path)
  : M world unit :=
  on_fs (write_fs p (KwargsJson kwargs output_filter_npy)).

(** [read_json(p)["contrib_file"]] *)
Definition read_json_contrib_file (p : path) : M world path :=
  fun w =>
    match lookup_node (fs w) p with
    | Some (File (KwargsJson kwargs _)) => (w, inr (contrib_file kwargs))
    | Some (File (Bytes _)) => (w, inl ValueError)
    | Some Dir => (w, inl IsADirectoryError)
    | None => (w, inl FileNotFoundError)
    end.

(** [shutil.copyfile(src, dst)] *)
Definition copyfile (src dst : path) : M world unit :=
  fun w =>
    match lookup_node (fs w) src with
    | Some (File c) => on_fs (write_fs dst c) w
    | Some Dir => (w, inl IsADirectoryError)
    | None => (w, inl FileNotFoundError)
    end.

(** *** The step tracker *)

(** Modelled from the spec: [bpnet.utils.ConditionalRun], which
    [modisco_report_all] imports and whose source is not part of this
    development. The specification (sections 4.1 and 6) gives its contract:
    a job name, the currently selected step, the output directory and the
    [force] flag; the marker of a step is the empty file
    [<output_dir>/.<job_name>/<step_name>.done]. *)
Record ConditionalRun : Type := mkConditionalRun {
  main_cmd : string;
  cmd : option string;
  cr_output_dir : path;
  force : bool
}.

(** Modelled from the spec: [set_cmd(step_name)] selects the step to query
    or mark next and returns the handle. *)
Definition set_cmd (step : string) (cr : ConditionalRun) : ConditionalRun :=
  mkConditionalRun (main_cmd cr) (Some step) (cr_output_dir cr) (force cr).

(** Modelled from the spec: the marker path of the selected step, a pure
    function of the job name, the step name and the output directory. *)
Definition get_done_file (cr : ConditionalRun) : path :=
  cr_output_dir cr ++ ["." +:+ main_cmd cr; default "None" (cmd cr) +:+ ".done"].

(** Modelled from the spec: [done()] is true iff the marker of the selected
    step exists and [force] was not requested; it changes nothing. *)
Definition done (cr : ConditionalRun) : M world bool :=
  fun w => (w, inr (path_exists (fs w) (get_done_file cr) && negb (force cr))).

(** Modelled from the spec: [write()] creates the marker of the selected
    step and any missing parent directory; on an already marked step it
    does nothing; it fails with an [OSError] when the output directory is
    not writable. *)
Definition write_marker (cr : ConditionalRun) (fsys : filesystem) : result filesystem :=
  if path_exists fsys (get_done_file cr) then mret fsys
  else if bool_decide (cr_output_dir cr ∈ readonly fsys) then raise PermissionError
  else fsys' ← makedirs (dirname (get_done_file cr)) fsys;
       write_fs (get_done_file cr) (Bytes EmptyString) fsys'.

(** Modelled from the spec: [write()] as an action of the driver. *)
Definition write (cr : ConditionalRun) : M world unit := on_fs (write_marker cr).

(** *** [modisco_report_all] *)

Section report_all.
(** Collaborators the driver calls and this file does not define:
    [ModiscoResult(...).open(); .patterns(); .close()], loading and
    caching the [ContribFile], and the work of each report command. *)
Variable mr_patterns : path -> M world (list string).
Variable load_contribsf : path -> M world unit.
Variable perform : command -> M world unit.

(** Running a command: it is logged, then performed. *)
Definition exec (c : command) : M world unit :=
  fun w => perform c (mkWorld (fs w) (environ w) (executed w ++ [c])).

(** [if not cr.set_cmd(c).done(): <c>(...); cr.write()] *)
Definition conditional_run (cr : ConditionalRun) (c : command) : M world unit :=
  let cr := set_cmd (command_name c) cr in
  d ← done cr;
  if negb d then exec c;; write cr else mret tt.

(** [modisco_report_all(modisco_dir, trim_frac, n_jobs, scan_instances,
    force)]. Logging, printing, the matplotlib backend switch and the
    [sync] list act on nothing modelled here and are left out; [trim_frac]
    and [n_jobs] only reach the commands. *)
Definition modisco_report_all (modisco_dir : path)
    (scan_instances force : bool) : M world unit :=
  contrib_scores ← read_json_contrib_file (modisco_dir ++ ["modisco-run.kwargs.json"]);
  all_patterns ← mr_patterns (modisco_dir ++ ["modisco.h5"]);
  if bool_decide (length all_patterns = 0%nat) then
    touch (modisco_dir ++ ["results.html"]);;
    touch (modisco_dir ++ ["seqlets"; "scored_regions.bed"])
  else
    let cr := mkConditionalRun "modisco_report_all" None modisco_dir force in
    d1 ← done (set_cmd "modisco_plot" cr);
    pending ←
      (if negb d1 then mret true
       else d2 ← done (set_cmd "modisco_cluster_patterns" cr);
            if negb d2 then mret true
            else d3 ← done (set_cmd "modisco_enrich_patterns" cr);
                 mret (negb d3));
    (if pending : bool then load_contribsf modisco_dir else mret tt);;
    conditional_run cr modisco_plot;;
    conditional_run cr modisco_report;;
    conditional_run cr modisco_table;;
    conditional_run cr modisco_cluster_patterns;;
    conditional_run cr modisco_enrich_patterns;;
    (if scan_instances then
       conditional_run cr modisco_centroid_seqlet_matches;;
       conditional_run cr cwm_scan
     else mret tt);;
    conditional_run cr modisco2bed.
End report_all.

(** *** [bpnet_modisco_run] *)

(** The loop that figures out [subset_tasks] from the entries of
    [contrib_wildcard.split(",")]; [subset] is the set built so far, or
    [None] once a ['*'] entry was seen. Unpacking an entry that has not
    three parts raises [ValueError], and so does an unknown task;
    [None.add(task)] raises [AttributeError]. *)
Fixpoint figure_subset_tasks (entries tasks : list string)
    (subset : option (gset string)) : result (option (gset string)) :=
  match entries with
  | [] => mret subset
  | w :: entries' =>
      match split "/"%char w with
      | [task; head; head_summary] =>
          if String.eqb task "*" then figure_subset_tasks entries' tasks None
          else if bool_decide (task ∈ tasks) then
            match subset with
            | Some s => figure_subset_tasks entries' tasks (Some ({[task]} ∪ s))
            | None => raise AttributeError
            end
          else raise ValueError
      | _ => raise ValueError
      end
  end.

Section modisco_run.
(** Helpers of [bpnet.utils] and [bpnet.cli.train], the gin and
    ContribFile calls, and everything [bpnet_modisco_run] does after it
    has figured out [subset_tasks]. *)
Variable add_file_logging : path -> string -> M world unit.
Variable create_tf_session : Z -> Qc -> M world unit.
Variable remove_exists : path -> bool -> M world unit.
Variable gin_parse_config_files_and_bindings :
  string -> option path -> Z -> list string -> M world unit.
Variable log_gin_config : path -> string -> M world unit.
Variable cf_get_tasks : path -> M world (list string).
Variable run_on_subset :
  run_args -> list string -> option (list string) -> M world unit.

Definition output_path (a : run_args) : path := output_dir a ++ ["modisco.h5"].
Definition output_filter_npy (a : run_args) : path :=
  output_dir a ++ ["modisco-run.subset-contrib-file.npy"].
Definition kwargs_json_file (a : run_args) : path :=
  output_dir a ++ ["modisco-run.kwargs.json"].
Definition config_output_file (a : run_args) : path :=
  output_dir a ++ ["modisco-run.input-config.gin"].

(** From the start of the function to the removal of earlier outputs. *)
Definition setup_outputs (a : run_args) : M world unit :=
  add_file_logging (output_dir a) "modisco-run";;
  match gpu a with
  | Some g => create_tf_session g (memfrac_gpu a)
  | None => setenv "CUDA_VISIBLE_DEVICES" EmptyString;; setenv "MKL_THREADING_LAYER" "GNU"
  end;;
  (if contains "/"%char (contrib_wildcard a) then mret tt else throw AssertionError);;
  remove_exists (output_path a) (overwrite a);;
  remove_exists (output_filter_npy a) (overwrite a);;
  remove_exists (kwargs_json_file a) (overwrite a);;
  match config a with
  | Some c =>
      remove_exists (config_output_file a) (overwrite a);;
      copyfile c (config_output_file a)
  | None => mret tt
  end.

(** Saving the hyper-parameters. *)
Definition save_kwargs (a : run_args) : M world unit :=
  write_json a (output_filter_npy a) (kwargs_json_file a).

(** The gin configuration and the tasks of the contribution file. *)
Definition configure_and_get_tasks (a : run_args) : M world (list string) :=
  gin_parse_config_files_and_bindings (premade a) (config a)
    (num_workers a) (split ";"%char (override a));;
  log_gin_config (output_dir a) "modisco-run.";;
  cf_get_tasks (contrib_file a).

(** [bpnet_modisco_run(...)], its keyword arguments gathered in [a]. *)
Definition bpnet_modisco_run (a : run_args) : M world unit :=
  setup_outputs a;;
  save_kwargs a;;
  tasks ← configure_and_get_tasks a;
  subset_tasks ← lift (figure_subset_tasks (split ","%char (contrib_wildcard a)) tasks (Some ∅));
  run_on_subset a tasks (elements <$> subset_tasks).
End modisco_run.

(** The two files [modisco_report_all] touches when there is no pattern. *)
Definition results_html (modisco_dir : path) : path := modisco_dir ++ ["results.html"].
Definition scored_regions_bed (modisco_dir : path) : path :=
  modisco_dir ++ ["seqlets"; "scored_regions.bed"].

(** A path can be touched: it is a file already, or it is free and its
    directory exists and is writable. *)
Definition touchable (fsys : filesystem) (p : path) : Prop :=
  is_file fsys p = true \/
  (lookup_node fsys p = None /\ is_dir fsys (dirname p) = true /\
   dirname p ∉ readonly fsys).

End Modisco.

(** ** Concrete runs *)

Module Demo.
Import Swag Modisco.

#[local] Open Scope Qc_scope.

(** A callback after one accumulated epoch of a one-tensor model. *)
Definition one_epoch : SWAGCallback :=
  mkSWAG [NdArray [Qc_of_Z 1]] [NdArray [Qc_of_Z 1]] 2 0 "swag" [[NdArray [Qc_of_Z 0]]].

(** Five epochs of a one-tensor model, the weight being the epoch index. *)
Definition five_epochs : list (Z * list ndarray) :=
  [(0%Z, [[Qc_of_Z 0]]); (1%Z, [[Qc_of_Z 1]]); (2%Z, [[Qc_of_Z 2]]);
   (3%Z, [[Qc_of_Z 3]]); (4%Z, [[Qc_of_Z 4]])].

(** No file can be opened for writing as ["swag_diag.json"]. *)
Definition diag_denied : filestore := mkStore ∅ {["swag_diag.json"]}.

(** The arguments of [bpnet modisco-run contrib.h5 out
    --contrib-wildcard=Foo/profile/wn], other options at their defaults. *)
Definition unknown_task_args : run_args :=
  {| contrib_file := ["data"; "contrib.h5"];
     output_dir := ["out"];
     null_contrib_file := None;
     premade := "modisco-50k";
     config := None;
     override := EmptyString;
     contrib_wildcard := "Foo/profile/wn";
     only_task_regions := false;
     filter_npy := None;
     exclude_chr := EmptyString;
     num_workers := 10;
     gpu := None;
     memfrac_gpu := Qc_of_Z 9 / Qc_of_Z 20;
     overwrite := false |}.

(** An empty output directory [out]. *)
Definition empty_out : world :=
  mkWorld (mkFS {[ ["out"] := Dir ]} ∅) ∅ [].

(** Collaborators that do nothing: the least any implementation of them
    does, so that every effect of a run below is an effect of a statement
    of the driver itself. *)
Definition no_logging : path -> string -> M world unit := fun _ _ => mret tt.
Definition no_session : Z -> Qc -> M world unit := fun _ _ => mret tt.
Definition no_removal : path -> bool -> M world unit := fun _ _ => mret tt.
Definition no_gin : string -> option path -> Z -> list string -> M world unit :=
  fun _ _ _ _ => mret tt.
Definition no_gin_log : path -> string -> M world unit := fun _ _ => mret tt.
Definition two_tasks : path -> M world (list string) := fun _ => mret ["Oct4"; "Sox2"].
Definition no_rest : run_args -> list string -> option (list string) -> M world unit :=
  fun _ _ _ => mret tt.

Definition after_setup : world :=
  (setup_outputs no_logging no_session no_removal unknown_task_args empty_out).1.
Definition after_save : world := (save_kwargs unknown_task_args after_setup).1.

Definition unknown_task_run : world * result unit :=
  bpnet_modisco_run no_logging no_session no_removal no_gin no_gin_log two_tasks
    no_rest unknown_task_args empty_out.

(** A modisco directory [out] as [bpnet_modisco_run] leaves it when no
    pattern was found: the hyper-parameters and [modisco.h5], and no
    [seqlets] directory. *)
Definition no_seqlets_dir : world :=
  mkWorld
    (mkFS {[ ["out"] := Dir;
             ["out"; "modisco-run.kwargs.json"] :=
               File (KwargsJson unknown_task_args
                       ["out"; "modisco-run.subset-contrib-file.npy"]);
             ["out"; "modisco.h5"] := File (Bytes EmptyString) ]} ∅)
    ∅ [].

(** The same directory with [seqlets] in place. *)
Definition with_seqlets_dir : world :=
  mkWorld
    (mkFS {[ ["out"] := Dir;
             ["out"; "seqlets"] := Dir;
             ["out"; "modisco-run.kwargs.json"] :=
               File (KwargsJson unknown_task_args
                       ["out"; "modisco-run.subset-contrib-file.npy"]);
             ["out"; "modisco.h5"] := File (Bytes EmptyString) ]} ∅)
    ∅ [].

Definition no_patterns : path -> M world (list string) := fun _ => mret [].
Definition no_contribsf : path -> M world unit := fun _ => mret tt.
Definition no_work : command -> M world unit := fun _ => mret tt.

Definition no_patterns_run (w : world) : world * result unit :=
  modisco_report_all no_patterns no_contribsf no_work ["out"] false false w.

(** A tracker for the job of [modisco_report_all] in [out]. *)
Definition tracker (force : bool) : ConditionalRun :=
  set_cmd "modisco_plot" (mkConditionalRun "modisco_report_all" None ["out"] force).

End Demo.

(** ** Further notions for the SWAG callback *)

Module SwagMore.
Import Swag.

#[local] Open Scope Qc_scope.


(** The size of a stored tensor; a Python float has none. *)
Definition tensor_shape (t : tensor) : option nat :=
  match t with
  | PyFloat _ => None
  | NdArray a => Some (length a)
  end.

(** [self.moments] and [self.mean] hold tensors of the same sizes, one for
    one. *)
Definition aligned (self : SWAGCallback) : Prop :=
  tensor_shape <$> moments self = tensor_shape <$> mean self.


(** The size numpy gives the result of an elementwise operation between a
    stored tensor of size [s] and an array of [k] entries; [None] where it
    raises. *)
Definition broadcast_shape (s : option nat) (k : nat) : option (option nat) :=
  match s with
  | None => Some (Some k)
  | Some l =>
      if decide (l = k) then Some (Some k)
      else if decide (l = 1%nat) then Some (Some k)
      else if decide (k = 1%nat) then Some (Some l)
      else None
  end.


End SwagMore.

(** ** More of bpnet/cli/modisco.py *)

Module ModiscoMore.
Import Modisco.

(** *** Strings *)

(** [sep.join(parts)] for a one-character separator. *)
Fixpoint join (sep : Ascii.ascii) (parts : list string) : string :=
  match parts with
  | [] => EmptyString
  | [p] => p
  | p :: rest => p +:+ String sep (join sep rest)
  end.

(** [s.split(sep, maxsplit=1)] *)
Fixpoint split1 (sep : Ascii.ascii) (s : string) : list string :=
  match s with
  | EmptyString => [EmptyString]
  | String c s' =>
      if Ascii.eqb c sep then [EmptyString; s']
      else match split1 sep s' with
           | hd :: tl => String c hd :: tl
           | [] => [String c EmptyString]
           end
  end.

(** The f-string [f"{task}/{head}/{head_summary}"]. *)
Definition contrib_key (task head head_summary : string) : string :=
  task +:+ "/" +:+ head +:+ "/" +:+ head_summary.

(** *** The entries of [contrib_wildcard] *)

(** An entry [task/head/head_summary] that names one of [tasks]. *)
Definition is_named (tasks : list string) (w : string) : bool :=
  match split "/" w with
  | [task; _; _] => negb (String.eqb task "*") && bool_decide (task ∈ tasks)
  | _ => false
  end.

(** An entry [*/head/head_summary]. *)
Definition is_star (w : string) : bool :=
  match split "/" w with
  | [task; _; _] => String.eqb task "*"
  | _ => false
  end.

(** The first component of an entry. *)
Definition entry_task (w : string) : string :=
  default EmptyString (head (split "/" w)).

(** *** Fetching the contribution scores *)

(** The value the variable [task] holds when the loop over
    [contrib_wildcard.split(",")] that figures out [subset_tasks] has
    returned: the task of the last entry ([str.split] never returns an
    empty list). *)
Definition task_after_loop (entries : list string) : string :=
  default EmptyString (entry_task <$> last entries).

(** [task_names] and [hyp_contrib] as built so far. *)
Abbreviation fetched A := (list string * gmap string A)%type.

Section fetch.
(** [cf._subset(cf.data[f'/hyp_contrib/{key}'], idx=idx)], a call into
    [ContribFile]. *)
Context {A : Type}.
Variable fetch : string -> result A.

(** [for task in use_tasks: ...], from the current value of [task] to the
    one the loop leaves. *)
Fixpoint fetch_tasks (head head_summary : string) (use_tasks : list string)
    (task : string) (acc : fetched A) : result (string * fetched A) :=
  match use_tasks with
  | [] => mret (task, acc)
  | task :: use_tasks' =>
      let key := contrib_key task head head_summary in
      v ← fetch key;
      fetch_tasks head head_summary use_tasks' task (acc.1 ++ [key], <[key := v]> acc.2)
  end.

(** [for w in contrib_wildcard.split(","): ...] of the second loop. The
    test reads [task], the variable the inner loop and the loop before
    assign, not [wc_task]. *)
Fixpoint expand_task_names (tasks entries : list string) (task : string)
    (acc : fetched A) : result (fetched A) :=
  match entries with
  | [] => mret acc
  | w :: entries' =>
      match split "/" w with
      | [wc_task; head; head_summary] =>
          let use_tasks := if String.eqb task "*" then tasks else [wc_task] in
          r ← fetch_tasks head head_summary use_tasks task acc;
          expand_task_names tasks entries' r.1 r.2
      | _ => raise ValueError
      end
  end.

(** The second loop of [bpnet_modisco_run], run after the first. *)
Definition fetch_contribs (tasks : list string) (contrib_wildcard : string)
  : result (fetched A) :=
  let entries := split "," contrib_wildcard in
  expand_task_names tasks entries (task_after_loop entries) ([], ∅).

(** Fetching [keys] one after the other. *)
Fixpoint fetch_keys (keys : list string) (acc : fetched A) : result (fetched A) :=
  match keys with
  | [] => mret acc
  | key :: keys' =>
      v ← fetch key;
      fetch_keys keys' (acc.1 ++ [key], <[key := v]> acc.2)
  end.
End fetch.

(** *** [cwm_scan] *)

(** The default of [contribution]:
    [contrib_wildcard.split(",")[0].split("/", maxsplit=1)[1]]; [None]
    stands for the [IndexError] of the last subscript. *)
Definition default_contribution (contrib_wildcard : string) : option string :=
  w ← head (split "," contrib_wildcard); split1 "/" w !! 1%nat.

(** [s.replace(old, new)] for an [old] that is not empty, from left to
    right: [skip] characters of an occurrence just replaced are still to be
    passed over. *)
Fixpoint replace_from (old new : string) (skip : nat) (s : string) : string :=
  match s with
  | EmptyString => EmptyString
  | String c s' =>
      match skip with
      | S k => replace_from old new k s'
      | O =>
          if String.prefix old s
          then new +:+ replace_from old new (String.length old - 1) s'
          else String c (replace_from old new 0 s')
      end
  end.

(** [t.replace(f"/{contribution}", "")], the pruning of a task name in
    [cwm_scan]. *)
Definition prune_task (contribution t : string) : string :=
  replace_from (String "/" contribution) EmptyString 0 t.

(** *** The steps of [modisco_report_all] *)

(** The commands in the order [modisco_report_all] goes through them. *)
Definition report_commands (scan_instances : bool) : list command :=
  [modisco_plot; modisco_report; modisco_table; modisco_cluster_patterns;
   modisco_enrich_patterns]
  ++ (if scan_instances then [modisco_centroid_seqlet_matches; cwm_scan] else [])
  ++ [modisco2bed].

(** [ConditionalRun("modisco_report_all", None, modisco_dir, force=force)] *)
Definition report_tracker (modisco_dir : path) (force : bool) : ConditionalRun :=
  mkConditionalRun "modisco_report_all" None modisco_dir force.

(** The marker the tracker keeps for a command. *)
Definition marker (modisco_dir : path) (c : command) : path :=
  get_done_file (set_cmd (command_name c) (report_tracker modisco_dir false)).

(** What [cr.set_cmd(c).done()] returns in world [w]. *)
Definition step_done (modisco_dir : path) (force : bool) (w : world)
    (c : command) : bool :=
  path_exists (fs w) (marker modisco_dir c) && negb force.

(** The condition under which the [ContribFile] is loaded and cached. *)
Definition contribsf_needed (modisco_dir : path) (force : bool) (w : world) : bool :=
  negb (step_done modisco_dir force w modisco_plot)
  || negb (step_done modisco_dir force w modisco_cluster_patterns)
  || negb (step_done modisco_dir force w modisco_enrich_patterns).

(** The world in which a command runs: the command has been logged. *)
Definition logged (c : command) (w : world) : world :=
  mkWorld (fs w) (environ w) (executed w ++ [c]).

Section steps.
Variable perform : command -> M world unit.

(** The [if not cr.set_cmd(c).done(): ...] blocks of a list of commands,
    one after the other. *)
Fixpoint run_commands (cr : ConditionalRun) (cs : list command) : M world unit :=
  match cs with
  | [] => mret tt
  | c :: cs' => conditional_run perform cr c;; run_commands cr cs'
  end.
End steps.

(** *** The included samples *)

(** [np.load(p)]; the array is kept as the text that was saved. *)
Definition np_load (p : path) : M world string :=
  fun w =>
    match lookup_node (fs w) p with
    | Some (File (Bytes arr)) => (w, inr arr)
    | Some (File (KwargsJson _ _)) => (w, inl ValueError)
    | Some Dir => (w, inl IsADirectoryError)
    | None => (w, inl FileNotFoundError)
    end.

(** [np.save(p, arr)] for a path that ends in [.npy], which numpy takes
    as it is. *)
Definition np_save (p : path) (arr : string) : M world unit :=
  on_fs (write_fs p (Bytes arr)).

(** [load_included_samples(modisco_dir)] *)
Definition load_included_samples (modisco_dir : path) : M world string :=
  np_load (modisco_dir ++ ["modisco-run.subset-contrib-file.npz"]).

(** [np.save(output_filter_npy, include_samples)] in [bpnet_modisco_run]. *)
Definition save_included_samples (a : run_args) (include_samples : string)
  : M world unit :=
  np_save (output_filter_npy a) include_samples.

Section ranges.
(** [ContribFile(contrib_file, included_samples).get_ranges()], then
    [close()]. *)
Context {R : Type}.
Variable cf_get_ranges : path -> string -> M world R.

(** [load_ranges(modisco_dir)] *)
Definition load_ranges (modisco_dir : path) : M world R :=
  included_samples ← load_included_samples modisco_dir;
  contrib_file ← read_json_contrib_file (modisco_dir ++ ["modisco-run.kwargs.json"]);
  cf_get_ranges contrib_file included_samples.
End ranges.

End ModiscoMore.

(** ** More concrete runs *)

Module DemoMore.
Import Swag Modisco ModiscoMore Demo.

#[local] Open Scope Qc_scope.



(** One epoch of a model whose only tensor has two entries. *)
Definition first_epoch : list (Z * list ndarray) :=
  [(0%Z, [[Qc_of_Z 1; Qc_of_Z 2]])].

(** The weights of a model whose only tensor has three entries. *)
Definition three_weights : list ndarray := [[Qc_of_Z 1; Qc_of_Z 2; Qc_of_Z 3]].


(** A contribution file that holds, under every key, the key itself. *)
Definition echo : string -> result string := fun key => inr key.

(** A modisco directory [out] whose report is complete: the markers of
    the six commands of a report without instance scanning exist. *)
Definition completed_report : world :=
  mkWorld
    (mkFS {[ ["out"] := Dir;
             ["out"; "modisco-run.kwargs.json"] :=
               File (KwargsJson unknown_task_args
                       ["out"; "modisco-run.subset-contrib-file.npy"]);
             ["out"; "modisco.h5"] := File (Bytes EmptyString);
             ["out"; ".modisco_report_all"] := Dir;
             ["out"; ".modisco_report_all"; "modisco_plot.done"] :=
               File (Bytes EmptyString);
             ["out"; ".modisco_report_all"; "modisco_report.done"] :=
               File (Bytes EmptyString);
             ["out"; ".modisco_report_all"; "modisco_table.done"] :=
               File (Bytes EmptyString);
             ["out"; ".modisco_report_all"; "modisco_cluster_patterns.done"] :=
               File (Bytes EmptyString);
             ["out"; ".modisco_report_all"; "modisco_enrich_patterns.done"] :=
               File (Bytes EmptyString);
             ["out"; ".modisco_report_all"; "modisco2bed.done"] :=
               File (Bytes EmptyString) ]} ∅)
    ∅ [].

Definition one_pattern : path -> M world (list string) :=
  fun _ => mret ["metacluster_0/pattern_0"].

(** Plotting fails, every other command does nothing. *)
Definition failing_plot : command -> M world unit :=
  fun c w =>
    match c with
    | modisco_plot => (w, inl ValueError)
    | _ => (w, inr tt)
    end.


(** Ranges that are the included samples themselves. *)
Definition samples_as_ranges : path -> string -> M world string :=
  fun _ included_samples => mret included_samples.

End DemoMore.

(** * Properties *)

(** A Python list comprehension whose body can raise. *)
Lemma mapM_result_app {A B} (f : A -> result B) (l1 l2 : list A) k1 k2 :
  mapM f l1 = inr k1 -> mapM f l2 = inr k2 -> mapM f (l1 ++ l2) = inr (k1 ++ k2).
Proof.
  revert k1. induction l1 as [|a l1 IH]; intros k1 H1 H2.
  - injection H1 as <-. exact H2.
  - cbn in H1 |- *. destruct (f a) as [e|b]; [discriminate|]. cbn in H1 |- *.
    destruct (mapM f l1) as [e|k] eqn:Hk; [discriminate|]. cbn in H1.
    injection H1 as <-. rewrite (IH k eq_refl H2). reflexivity.
Qed.

Lemma mapM_result_cons {A B} (f : A -> result B) (a : A) (l : list A) :
  mapM f (a :: l) =
    match f a with
    | inl e => inl e
    | inr b => match mapM f l with inl e => inl e | inr k => inr (b :: k) end
    end.
Proof. reflexivity. Qed.

Lemma mapM_result_total {A B} (f : A -> result B) (g : A -> B) (l : list A) :
  (forall a, a ∈ l -> f a = inr (g a)) -> mapM f l = inr (g <$> l).
Proof.
  induction l as [|a l IH]; intros Hf; [reflexivity|].
  cbn. rewrite (Hf a) by left. cbn. rewrite IH; [reflexivity|].
  intros b Hb. apply Hf. by right.
Qed.

Lemma mapM_result_length {A B} (f : A -> result B) (l : list A) k :
  mapM f l = inr k -> length k = length l.
Proof.
  revert k. induction l as [|a l IH]; intros k H.
  - injection H as <-. reflexivity.
  - cbn in H. destruct (f a) as [e|b]; [discriminate|]. cbn in H.
    destruct (mapM f l) as [e|k'] eqn:Hk; [discriminate|]. cbn in H.
    injection H as <-. cbn. f_equal. by apply IH.
Qed.


(** ** Properties of the SWAG callback *)

Module SwagFacts.
Import Swag.

#[local] Open Scope Qc_scope.

(** *** Unfolding the epoch hook *)

Ltac step := cbn -[mean_step moment_step deviation mapM zip].
Ltac step_in H := cbn -[mean_step moment_step deviation mapM zip] in H.

Lemma on_epoch_end_warmup (self : SWAGCallback) epoch weights :
  (epoch < start self)%Z ->
  on_epoch_end epoch weights self = (evict self, inr tt).
Proof.
  intros Hlt. unfold on_epoch_end, evict, mbind, M_bind, get. step.
  rewrite bool_decide_eq_false_2 by lia. step.
  destruct (bool_decide _); reflexivity.
Qed.

Lemma on_epoch_end_accumulate (self : SWAGCallback) epoch weights m q c :
  (start self <= epoch)%Z ->
  mapM (fun '(prev, curr) => mean_step (epoch - start self) prev curr)
    (zip (mean self) weights) = inr m ->
  mapM (fun '(prev, (_, curr)) => moment_step (epoch - start self) prev curr)
    (zip (moments self) (zip m weights)) = inr q ->
  mapM (fun '(mean, curr) => deviation mean curr) (zip m weights) = inr c ->
  on_epoch_end epoch weights self =
    (evict (mkSWAG m q (rank self) (start self) (output_prefix self)
              (cols self ++ [c])), inr tt).
Proof.
  intros Hge Hm Hq Hc. unfold on_epoch_end, evict, mbind, M_bind, get, lift. step.
  rewrite bool_decide_eq_true_2 by lia. step.
  rewrite Hm. step. rewrite Hq. step. rewrite Hc. step.
  destruct (bool_decide _); reflexivity.
Qed.

Lemma on_epoch_end_inv (self self' : SWAGCallback) epoch weights :
  (start self <= epoch)%Z ->
  on_epoch_end epoch weights self = (self', inr tt) ->
  exists m q c,
    mapM (fun '(prev, curr) => mean_step (epoch - start self) prev curr)
      (zip (mean self) weights) = inr m /\
    mapM (fun '(prev, (_, curr)) => moment_step (epoch - start self) prev curr)
      (zip (moments self) (zip m weights)) = inr q /\
    mapM (fun '(mean, curr) => deviation mean curr) (zip m weights) = inr c /\
    self' = evict (mkSWAG m q (rank self) (start self) (output_prefix self)
                     (cols self ++ [c])).
Proof.
  intros Hge H.
  destruct (mapM (fun '(prev, curr) => mean_step (epoch - start self) prev curr)
              (zip (mean self) weights)) as [e|m] eqn:Hm.
  { unfold on_epoch_end, mbind, M_bind, get, lift in H. step_in H.
    rewrite bool_decide_eq_true_2 in H by lia. step_in H. rewrite Hm in H.
    discriminate. }
  destruct (mapM (fun '(prev, (_, curr)) => moment_step (epoch - start self) prev curr)
              (zip (moments self) (zip m weights))) as [e|q] eqn:Hq.
  { unfold on_epoch_end, mbind, M_bind, get, lift in H. step_in H.
    rewrite bool_decide_eq_true_2 in H by lia. step_in H. rewrite Hm in H.
    step_in H. rewrite Hq in H. discriminate. }
  destruct (mapM (fun '(mean, curr) => deviation mean curr) (zip m weights))
    as [e|c] eqn:Hc.
  { unfold on_epoch_end, mbind, M_bind, get, lift in H. step_in H.
    rewrite bool_decide_eq_true_2 in H by lia. step_in H. rewrite Hm in H.
    step_in H. rewrite Hq in H. step_in H. rewrite Hc in H. discriminate. }
  exists m, q, c. split_and!; try done.
  rewrite (on_epoch_end_accumulate self epoch weights m q c Hge Hm Hq Hc) in H.
  by injection H as <-.
Qed.

(** *** Entries of the tensors the hook computes *)







(** Stored tensors that fit the weights can always be combined with them. *)
Lemma tbinop_fits f t a :
  fits t a = true -> exists r, tbinop f t (NdArray a) = inr (NdArray r) /\ length r = length a.
Proof.
  destruct t as [x|p]; cbn; intros H.
  - eexists. split; [reflexivity|]. by rewrite length_fmap.
  - apply bool_decide_eq_true_1 in H. unfold broadcast.
    rewrite decide_True by done. eexists. split; [reflexivity|].
    rewrite length_zip_with. lia.
Qed.

Lemma fits_tmap f t a : fits (tmap f t) a = fits t a.
Proof. destruct t; cbn; [reflexivity|]. by rewrite length_fmap. Qed.

Lemma fits_tmap_r f t a : fits t (f <$> a) = fits t a.
Proof. destruct t; cbn; [reflexivity|]. by rewrite length_fmap. Qed.

Lemma mean_step_fits n prev curr :
  fits prev curr = true ->
  exists r, mean_step n prev curr = inr (NdArray r) /\ length r = length curr.
Proof.
  intros H. unfold mean_step, tadd.
  destruct (tbinop_fits Qcplus (tscale n prev) curr) as (r & Hr & Hlen).
  { unfold tscale. by rewrite fits_tmap. }
  rewrite Hr. cbn. eexists. split; [reflexivity|]. by rewrite length_fmap.
Qed.

Lemma moment_step_fits n prev curr :
  fits prev curr = true ->
  exists r, moment_step n prev curr = inr (NdArray r) /\ length r = length curr.
Proof.
  intros H. unfold moment_step, tadd. cbn [tsquare tmap].
  destruct (tbinop_fits Qcplus (tscale n prev) ((fun x => x * x) <$> curr))
    as (r & Hr & Hlen).
  { unfold tscale. by rewrite fits_tmap, fits_tmap_r. }
  rewrite Hr. cbn. eexists. split; [reflexivity|].
  by rewrite length_fmap, Hlen, length_fmap.
Qed.

Lemma deviation_fits mean curr :
  fits mean curr = true ->
  exists r, deviation mean curr = inr (NdArray r) /\ length r = length curr.
Proof.
  unfold deviation, tsub. destruct mean as [x|p]; cbn; intros H.
  - eexists. split; [reflexivity|]. by rewrite length_fmap.
  - apply bool_decide_eq_true_1 in H. unfold broadcast.
    rewrite decide_True by done. eexists. split; [reflexivity|].
    rewrite length_zip_with. lia.
Qed.

(** *** When the hook succeeds *)

Section comprehension.
Variable step : tensor -> ndarray -> result tensor.
Hypothesis step_fits : forall t a,
  fits t a = true -> exists r, step t a = inr (NdArray r) /\ length r = length a.

Lemma comprehension_fits (ts : list tensor) (weights : list ndarray) :
  all_fit ts weights = true ->
  exists rs, mapM (fun '(t, a) => step t a) (zip ts weights) = inr rs /\
    length rs = Nat.min (length ts) (length weights) /\
    all_fit rs weights = true /\ forallb is_array rs = true.
Proof.
  revert weights. induction ts as [|t ts IH]; intros [|a w] Hfit;
    try (exists []; done).
  cbn in Hfit. apply andb_true_iff in Hfit as [Ht Hts].
  destruct (step_fits t a Ht) as (r & Hr & Hlen).
  destruct (IH w Hts) as (rs & Hrs & Hl & Hf & Ha).
  exists (NdArray r :: rs). cbn. rewrite Hr. cbn. rewrite Hrs. cbn.
  split_and!; try done.
  - by rewrite Hl.
  - unfold all_fit in *. cbn. rewrite Hf, andb_true_r. by apply bool_decide_eq_true_2.
Qed.

Lemma comprehension3_fits (ts ms : list tensor) (weights : list ndarray) :
  all_fit ts weights = true ->
  exists rs, mapM (fun '(t, (_, a)) => step t a) (zip ts (zip ms weights)) = inr rs /\
    length rs = Nat.min (length ts) (Nat.min (length ms) (length weights)) /\
    all_fit rs weights = true /\ forallb is_array rs = true.
Proof.
  revert ms weights. induction ts as [|t ts IH]; intros [|m ms] [|a w] Hfit;
    try (exists []; done).
  cbn in Hfit. apply andb_true_iff in Hfit as [Ht Hts].
  destruct (step_fits t a Ht) as (r & Hr & Hlen).
  destruct (IH ms w Hts) as (rs & Hrs & Hl & Hf & Ha).
  exists (NdArray r :: rs). cbn. rewrite Hr. cbn. rewrite Hrs. cbn.
  split_and!; try done.
  - by rewrite Hl.
  - unfold all_fit in *. cbn. rewrite Hf, andb_true_r. by apply bool_decide_eq_true_2.
Qed.
End comprehension.

Lemma mean_evict self : mean (evict self) = mean self.
Proof. unfold evict. by destruct (bool_decide _). Qed.
Lemma moments_evict self : moments (evict self) = moments self.
Proof. unfold evict. by destruct (bool_decide _). Qed.
Lemma start_evict self : start (evict self) = start self.
Proof. unfold evict. by destruct (bool_decide _). Qed.
Lemma rank_evict self : rank (evict self) = rank self.
Proof. unfold evict. by destruct (bool_decide _). Qed.

(** From a state whose tensors fit the weights the hook returns normally,
    and the tensors it stores are arrays that fit the same weights. *)
Lemma on_epoch_end_succeeds (self : SWAGCallback) epoch weights :
  (start self <= epoch)%Z -> compatible self weights = true ->
  exists self', on_epoch_end epoch weights self = (self', inr tt) /\
    compatible self' weights = true /\
    forallb is_array (mean self') = true /\
    forallb is_array (moments self') = true /\
    length (mean self') = Nat.min (length (mean self)) (length weights) /\
    length (moments self') =
      Nat.min (length (moments self)) (Nat.min (length (mean self)) (length weights)).
Proof.
  intros Hge Hc. apply andb_true_iff in Hc as [Hm Hq].
  destruct (comprehension_fits (mean_step (epoch - start self))
              (mean_step_fits _) _ _ Hm) as (m & Em & Lm & Fm & Am).
  destruct (comprehension3_fits (moment_step (epoch - start self))
              (moment_step_fits _) _ m _ Hq) as (q & Eq & Lq & Fq & Aq).
  destruct (comprehension_fits deviation deviation_fits _ _ Fm)
    as (c & Ec & _).
  eexists. split; [exact (on_epoch_end_accumulate _ _ _ m q c Hge Em Eq Ec)|].
  unfold compatible. rewrite mean_evict, moments_evict. cbn [mean moments].
  rewrite Fm, Fq, Am, Aq, Lq, Lm. split_and!; try done. lia.
Qed.

Lemma on_epochs_nil self : on_epochs [] self = (self, inr tt).
Proof. reflexivity. Qed.

Lemma on_epochs_cons epoch weights calls self :
  on_epochs ((epoch, weights) :: calls) self =
    match on_epoch_end epoch weights self with
    | (self', inl e) => (self', inl e)
    | (self', inr _) => on_epochs calls self'
    end.
Proof.
  unfold on_epochs, mbind, M_bind. cbn -[on_epoch_end].
  unfold mbind, M_bind.
  destruct (on_epoch_end epoch weights self) as [s1 [e|[]]]; [reflexivity|].
  destruct (@mapM (M SWAGCallback) _ _ _ _ _ calls s1) as [s2 [e|l]]; reflexivity.
Qed.


(** Closed equations between rational data are decided by evaluation. *)
Ltac by_evaluation :=
  match goal with
  | |- @eq ?T ?x ?y =>
      let d := constr:(_ : Decision (@eq T x y)) in
      apply (@bool_decide_unpack _ d); vm_compute; exact I
  end.



(** *** The deviation buffer *)

Lemma cols_evict self : cols (evict self) = evict_cols (rank self) (cols self).
Proof. unfold evict, evict_cols. by destruct (bool_decide _). Qed.




(** What one returning call does to the buffer. *)
Lemma on_epoch_end_cols (self self' : SWAGCallback) epoch weights :
  on_epoch_end epoch weights self = (self', inr tt) ->
  rank self' = rank self /\ start self' = start self /\
  cols self' =
    evict_cols (rank self)
      (cols self ++ if bool_decide (epoch >= start self)%Z
                    then [snapshot (mean self') weights] else []).
Proof.
  intros H. case_bool_decide as Hge.
  - destruct (on_epoch_end_inv self self' epoch weights ltac:(lia) H)
      as (m & q & c & Em & Eq & Ec & ->).
    rewrite rank_evict, start_evict, cols_evict, mean_evict. cbn [rank start cols mean].
    unfold snapshot. rewrite Ec. done.
  - rewrite on_epoch_end_warmup in H by lia. injection H as <-.
    rewrite rank_evict, start_evict, cols_evict, app_nil_r. done.
Qed.


(** *** Whole runs return when the model keeps its shapes *)

Lemma all_fit_shapes ts (w w' : list ndarray) :
  shapes w = shapes w' -> all_fit ts w = all_fit ts w'.
Proof.
  unfold shapes, all_fit. revert w w'.
  induction ts as [|t ts IH]; intros [|a w] [|a' w'] H; try done.
  cbn in H. injection H as Ha Hw. cbn. rewrite (IH w w' Hw). f_equal.
  destruct t; cbn; [done|]. by rewrite Ha.
Qed.

Lemma compatible_shapes self (w w' : list ndarray) :
  shapes w = shapes w' -> compatible self w = compatible self w'.
Proof.
  intros H. unfold compatible. by rewrite !(all_fit_shapes _ w w' H).
Qed.

Lemma all_fit_floats n x (w : list ndarray) : all_fit (replicate n (PyFloat x)) w = true.
Proof.
  unfold all_fit. revert w. induction n as [|n IH]; intros [|a w]; try done.
  cbn. apply IH.
Qed.

Lemma compatible_init prefix start rank w : compatible (init prefix start rank) w = true.
Proof. unfold compatible, init. cbn [mean moments]. by rewrite !all_fit_floats. Qed.

Lemma on_epochs_succeeds calls (self : SWAGCallback) w0 :
  Forall (fun call => shapes call.2 = shapes w0) calls ->
  compatible self w0 = true ->
  exists self', on_epochs calls self = (self', inr tt).
Proof.
  revert self. induction calls as [|[epoch w] calls IH]; intros self Hs Hc.
  - eexists. apply on_epochs_nil.
  - apply Forall_cons in Hs as [Hw Hs]. cbn in Hw. rewrite on_epochs_cons.
    destruct (decide (start self <= epoch)%Z) as [Hge|Hlt].
    + destruct (on_epoch_end_succeeds self epoch w Hge) as (s1 & E1 & C1 & _).
      { by rewrite (compatible_shapes _ w w0). }
      rewrite E1. apply IH; [done|]. by rewrite <- (compatible_shapes _ w w0).
    + rewrite on_epoch_end_warmup by lia. apply IH; [done|].
      unfold compatible. by rewrite mean_evict, moments_evict.
Qed.



(** With a negative [rank] every call empties the buffer, so its length,
    0, is above [rank]: the bound of C3 needs [rank >= 0]. *)
Lemma negative_rank_empties_buffer (self self' : SWAGCallback) epoch weights :
  (rank self < 0)%Z -> cols self = [] ->
  on_epoch_end epoch weights self = (self', inr tt) -> cols self' = [].
Proof.
  intros Hr Hc H. destruct (on_epoch_end_cols _ _ _ _ H) as (_ & _ & ->).
  rewrite Hc. unfold evict_cols.
  destruct (bool_decide (epoch >= start self)%Z); cbn [app length];
    rewrite bool_decide_eq_true_2 by lia; reflexivity.
Qed.

(** *** The running mean is the arithmetic mean *)






(** *** Warm-up *)

Lemma on_epochs_warmup calls (self : SWAGCallback) :
  Forall (fun call => call.1 < start self)%Z calls ->
  exists self', on_epochs calls self = (self', inr tt) /\
    mean self' = mean self /\ moments self' = moments self.
Proof.
  revert self. induction calls as [|[epoch w] calls IH]; intros self Hw.
  - exists self. by rewrite on_epochs_nil.
  - apply Forall_cons in Hw as [Hlt Hw]. cbn in Hlt.
    rewrite on_epochs_cons, on_epoch_end_warmup by done.
    destruct (IH (evict self)) as (s & Hs & Hm & Hq).
    { by rewrite start_evict. }
    exists s. by rewrite Hs, Hm, Hq, mean_evict, moments_evict.
Qed.

(** C4. A call with [epoch < start] returns and leaves [RunningMean] and
    [RunningSecondMoment] as they were; any number of such calls on a fresh
    callback leaves both at their 2000 initial zeros, in particular the
    calls for epochs 0 to 4 when [start = 5]. *)
Theorem C4_warmup_noop :
  (forall (self : SWAGCallback) epoch weights,
     (epoch < start self)%Z ->
     exists self', on_epoch_end epoch weights self = (self', inr tt) /\
       mean self' = mean self /\ moments self' = moments self) /\
  (forall prefix st rk calls,
     Forall (fun call => call.1 < st)%Z calls ->
     exists self', on_epochs calls (init prefix st rk) = (self', inr tt) /\
       mean self' = replicate 2000 (PyFloat 0) /\
       moments self' = replicate 2000 (PyFloat 0)) /\
  (forall prefix rk w0 w1 w2 w3 w4,
     exists self',
       on_epochs [(0%Z, w0); (1%Z, w1); (2%Z, w2); (3%Z, w3); (4%Z, w4)]
         (init prefix 5 rk) = (self', inr tt) /\
       mean self' = replicate 2000 (PyFloat 0) /\
       moments self' = replicate 2000 (PyFloat 0)).
Proof.
  assert (forall prefix st rk calls,
     Forall (fun call => call.1 < st)%Z calls ->
     exists self', on_epochs calls (init prefix st rk) = (self', inr tt) /\
       mean self' = replicate 2000 (PyFloat 0) /\
       moments self' = replicate 2000 (PyFloat 0)) as Hrun.
  { intros prefix st rk calls Hw.
    destruct (on_epochs_warmup calls (init prefix st rk) Hw) as (s & Hs & Hm & Hq).
    exists s. by rewrite Hs, Hm, Hq. }
  split_and!.
  - intros self epoch weights Hlt. exists (evict self).
    by rewrite on_epoch_end_warmup, mean_evict, moments_evict.
  - exact Hrun.
  - intros prefix rk w0 w1 w2 w3 w4. apply Hrun.
    repeat (apply Forall_cons; split; [cbn; lia|]). apply Forall_nil_2.
Qed.

(** *** The first accumulated snapshot *)

Lemma mean_step_first x (curr : ndarray) :
  mean_step 0 (PyFloat x) curr = inr (NdArray curr).
Proof.
  unfold mean_step, tadd, tscale, tdiv. cbn. do 2 f_equal.
  rewrite <- list_fmap_compose. rewrite <- (list_fmap_id curr) at 2.
  apply list_fmap_ext. intros _ c _. cbn.
  change (0 + 1)%Z with 1%Z. rewrite Z2Qc_inj_0, Z2Qc_inj_1. field. done.
Qed.

Lemma zip_replicate_l {A B} n (x : A) (k : list B) :
  zip (replicate n x) k = (fun b => (x, b)) <$> take n k.
Proof.
  revert k. induction n as [|n IH]; intros [|b k]; try done.
  cbn. f_equal. apply IH.
Qed.

(** C9. A fresh callback holds 2000 zeros and zips them with the weights,
    so the first accumulating call returns with [RunningMean] and
    [RunningSecondMoment] of length [min 2000 (number of weight tensors)];
    when that call is for [epoch = start] the mean is the first 2000
    weight tensors, and it is the whole snapshot exactly when the model has
    at most 2000 tensors. *)
Theorem C9_fixed_capacity_truncates :
  forall prefix st rk epoch (weights : list ndarray),
    (epoch >= st)%Z ->
    exists self',
      on_epoch_end epoch weights (init prefix st rk) = (self', inr tt) /\
      length (mean self') = Nat.min 2000 (length weights) /\
      length (moments self') = Nat.min 2000 (length weights) /\
      (epoch = st ->
       mean self' = NdArray <$> take 2000 weights /\
       (mean self' = NdArray <$> weights <-> (length weights <= 2000)%nat)).
Proof.
  intros prefix st rk epoch weights Hge.
  destruct (on_epoch_end_succeeds (init prefix st rk) epoch weights)
    as (s & Hs & _ & _ & _ & Lm & Lq); [cbn; lia|apply compatible_init|].
  cbn [mean moments init] in Lm, Lq. rewrite length_replicate in Lm, Lq.
  exists s. split_and!; [done|done|by rewrite Lq, Nat.min_assoc, Nat.min_id|].
  intros ->.
  destruct (on_epoch_end_inv (init prefix st rk) s st weights ltac:(cbn; lia) Hs)
    as (m & q & c & Em & _ & _ & ->).
  rewrite mean_evict. cbn [mean start init] in Em |- *.
  rewrite Z.sub_diag, zip_replicate_l in Em.
  rewrite (mapM_result_total _ (fun '(_, curr) => NdArray curr)) in Em.
  2:{ intros [t curr] Hin. apply list_elem_of_fmap in Hin as (b & [= -> ->] & _).
      apply mean_step_first. }
  injection Em as <-. rewrite <- list_fmap_compose.
  assert ((fun '(_, curr) => NdArray curr) ∘ (fun b : ndarray => (PyFloat 0, b))
          = NdArray) as -> by done.
  split; [done|]. split.
  - intros Heq. apply (f_equal length) in Heq.
    rewrite !length_fmap, length_take in Heq. unfold capacity in Heq. lia.
  - intros Hle. by rewrite take_ge by (unfold capacity; lia).
Qed.

(** *** Writing the result *)

Lemma on_train_end_unfold (self : SWAGCallback) (fs : filestore) :
  on_train_end self fs =
    match mean_json self with
    | inl e => (fs, inl e)
    | inr m =>
        if bool_decide (mean_path self ∈ denied fs) then (fs, inl PermissionError)
        else
          let fs1 := write_file (mean_path self) m fs in
          match diag_json self with
          | inl e => (fs1, inl e)
          | inr d =>
              if bool_decide (diag_path self ∈ denied fs) then (fs1, inl PermissionError)
              else
                let fs2 := write_file (diag_path self) d fs1 in
                match cols_json self with
                | inl e => (fs2, inl e)
                | inr c =>
                    if bool_decide (cols_path self ∈ denied fs)
                    then (fs2, inl PermissionError)
                    else (write_file (cols_path self) c fs2, inr tt)
                end
          end
    end.
Proof.
  unfold on_train_end, mean_json, diag_json, cols_json, lift, mbind, M_bind,
    json_dump, write_file.
  destruct (mapM tolist (mean self)) as [e|m]; [reflexivity|]. cbn.
  destruct (bool_decide (mean_path self ∈ denied fs)); [reflexivity|].
  destruct (diagonal self) as [e|diag]; [reflexivity|]. cbn.
  destruct (mapM tolist diag) as [e|d]; [reflexivity|]. cbn.
  destruct (bool_decide (diag_path self ∈ denied fs)); [reflexivity|].
  destruct (mapM _ (cols self)) as [e|c]; [reflexivity|]. cbn.
  destruct (bool_decide (cols_path self ∈ denied fs)); reflexivity.
Qed.








(** A never-updated callback still holds Python floats, which have no
    [tolist]. *)
Lemma mean_json_init prefix st rk : mean_json (init prefix st rk) = inl AttributeError.
Proof. reflexivity. Qed.

(** C5. At a callback that has not accumulated any epoch (for instance
    training ended before [start]), [on_train_end] raises [AttributeError]
    while building the first JSON value and opens none of the three files:
    the file system is left exactly as it was. *)
Theorem C5_on_train_end_before_accumulating :
  forall prefix st rk (fs : filestore),
    on_train_end (init prefix st rk) fs = (fs, inl AttributeError).
Proof.
  intros prefix st rk fs. rewrite on_train_end_unfold, mean_json_init. reflexivity.
Qed.










End SwagFacts.

(** ** Properties of the step tracker and of the modisco drivers *)

Module ModiscoFacts.
Import Modisco.

(** *** File-system operations *)

Lemma lookup_node_set_node_eq p n fsys :
  p <> [] -> lookup_node (set_node p n fsys) p = Some n.
Proof.
  intros Hp. destruct p as [|x p]; [done|]. cbn. apply lookup_insert_eq.
Qed.

Lemma lookup_node_set_node_ne p q n fsys :
  p <> q -> lookup_node (set_node p n fsys) q = lookup_node fsys q.
Proof.
  intros Hpq. destruct q as [|x q]; [done|]. cbn. by apply lookup_insert_ne.
Qed.

Lemma readonly_set_node p n fsys : readonly (set_node p n fsys) = readonly fsys.
Proof. reflexivity. Qed.

Lemma create_check_nonempty fsys p : create_check fsys p = inr tt -> p <> [].
Proof. by destruct p. Qed.

(** Writing or touching a file leaves every other path as it was and
    leaves a file at the path. *)
Lemma write_fs_other p c fsys fsys' q :
  write_fs p c fsys = inr fsys' -> q <> p -> lookup_node fsys' q = lookup_node fsys q.
Proof.
  unfold write_fs. intros H Hq.
  destruct (lookup_node fsys p) as [[c0|]|] eqn:Hp; try discriminate.
  - injection H as <-. by apply lookup_node_set_node_ne.
  - destruct (create_check fsys p) as [e|[]]; [discriminate|].
    injection H as <-. by apply lookup_node_set_node_ne.
Qed.

Lemma write_fs_at p c fsys fsys' :
  write_fs p c fsys = inr fsys' -> lookup_node fsys' p = Some (File c).
Proof.
  unfold write_fs. intros H.
  destruct (lookup_node fsys p) as [[c0|]|] eqn:Hp; try discriminate.
  - injection H as <-. apply lookup_node_set_node_eq. by destruct p.
  - destruct (create_check fsys p) as [e|[]] eqn:Hc; [discriminate|].
    injection H as <-. apply lookup_node_set_node_eq.
    by apply (create_check_nonempty fsys).
Qed.

Lemma touch_fs_other p fsys fsys' q :
  touch_fs p fsys = inr fsys' -> q <> p -> lookup_node fsys' q = lookup_node fsys q.
Proof.
  unfold touch_fs. intros H Hq.
  destruct (lookup_node fsys p) as [[c0|]|] eqn:Hp; try discriminate.
  - by injection H as <-.
  - destruct (create_check fsys p) as [e|[]]; [discriminate|].
    injection H as <-. by apply lookup_node_set_node_ne.
Qed.

(** After a touch the file exists; its content is what it was, or empty
    if the file was missing. *)
Lemma touch_fs_at p fsys fsys' :
  touch_fs p fsys = inr fsys' ->
  lookup_node fsys' p =
    Some (File (match lookup_node fsys p with
                | Some (File c) => c
                | _ => Bytes EmptyString
                end)).
Proof.
  unfold touch_fs. intros H.
  destruct (lookup_node fsys p) as [[c0|]|] eqn:Hp; try discriminate.
  - by injection H as <-.
  - destruct (create_check fsys p) as [e|[]] eqn:Hc; [discriminate|].
    injection H as <-. apply lookup_node_set_node_eq.
    by apply (create_check_nonempty fsys).
Qed.

Lemma touch_fs_creatable p fsys :
  lookup_node fsys p = None -> is_dir fsys (dirname p) = true ->
  dirname p ∉ readonly fsys ->
  touch_fs p fsys = inr (set_node p (File (Bytes EmptyString)) fsys).
Proof.
  unfold touch_fs, create_check, is_dir. intros Hp Hd Hr. rewrite Hp.
  destruct p as [|x p]; [done|].
  destruct (lookup_node fsys (dirname (x :: p))) as [[c|]|]; try done.
  by rewrite bool_decide_eq_false_2.
Qed.

Lemma touch_fs_existing p c fsys :
  lookup_node fsys p = Some (File c) -> touch_fs p fsys = inr fsys.
Proof. unfold touch_fs. by intros ->. Qed.

Lemma makedirs_from_cons pre d todo fsys :
  makedirs_from pre (d :: todo) fsys =
    match lookup_node fsys (pre ++ [d]) with
    | Some Dir => makedirs_from (pre ++ [d]) todo fsys
    | Some (File _) => raise FileExistsError
    | None =>
        if bool_decide (pre ∈ readonly fsys) then raise PermissionError
        else makedirs_from (pre ++ [d]) todo (set_node (pre ++ [d]) Dir fsys)
    end.
Proof. reflexivity. Qed.

(** [makedirs] only adds directories at paths that did not exist. *)
Lemma makedirs_from_preserves pre todo fsys fsys' q n :
  makedirs_from pre todo fsys = inr fsys' ->
  lookup_node fsys q = Some n -> lookup_node fsys' q = Some n.
Proof.
  revert pre fsys. induction todo as [|d todo IH]; intros pre fsys H Hq.
  - by injection H as <-.
  - rewrite makedirs_from_cons in H. destruct (lookup_node fsys (pre ++ [d])) as [[c|]|] eqn:Hp;
      [discriminate|by eapply IH|].
    case_bool_decide; [discriminate|].
    eapply IH; [exact H|]. rewrite lookup_node_set_node_ne; [done|].
    intros <-. congruence.
Qed.

Lemma makedirs_from_readonly pre todo fsys fsys' :
  makedirs_from pre todo fsys = inr fsys' -> readonly fsys' = readonly fsys.
Proof.
  revert pre fsys. induction todo as [|d todo IH]; intros pre fsys H.
  - by injection H as <-.
  - rewrite makedirs_from_cons in H. destruct (lookup_node fsys (pre ++ [d])) as [[c|]|] eqn:Hp;
      [discriminate|by eapply IH|].
    case_bool_decide; [discriminate|]. by rewrite (IH _ _ H).
Qed.

(** After [makedirs] every directory on the way exists. *)
Lemma makedirs_from_dirs pre todo fsys fsys' k :
  makedirs_from pre todo fsys = inr fsys' ->
  is_dir fsys pre = true -> (k <= length todo)%nat ->
  is_dir fsys' (pre ++ take k todo) = true.
Proof.
  revert pre fsys k. induction todo as [|d todo IH]; intros pre fsys k H Hd Hk.
  - injection H as <-. rewrite take_nil, app_nil_r. exact Hd.
  - destruct k as [|k].
    + rewrite take_0, app_nil_r. unfold is_dir in *.
      destruct (lookup_node fsys pre) as [[c|]|] eqn:Hl; try done.
      by rewrite (makedirs_from_preserves _ _ _ _ _ _ H Hl).
    + rewrite makedirs_from_cons in H. cbn [length] in Hk. cbn [take].
      replace (pre ++ d :: take k todo) with ((pre ++ [d]) ++ take k todo)
        by (by rewrite <- app_assoc).
      destruct (lookup_node fsys (pre ++ [d])) as [[c|]|] eqn:Hp; [discriminate| |].
      * eapply IH; [exact H| |lia]. unfold is_dir. by rewrite Hp.
      * case_bool_decide; [discriminate|].
        eapply IH; [exact H| |lia]. unfold is_dir.
        rewrite lookup_node_set_node_eq; [done|]. by destruct pre.
Qed.

(** *** The step tracker *)

Lemma world_eta w : mkWorld (fs w) (environ w) (executed w) = w.
Proof. by destruct w. Qed.

Lemma on_fs_ok f w fsys :
  f (fs w) = inr fsys -> on_fs f w = (mkWorld fsys (environ w) (executed w), inr tt).
Proof. unfold on_fs. by intros ->. Qed.

Lemma on_fs_inv f w w' :
  on_fs f w = (w', inr tt) ->
  f (fs w) = inr (fs w') /\ environ w' = environ w /\ executed w' = executed w.
Proof.
  unfold on_fs. destruct (f (fs w)) as [e|fsys]; [discriminate|].
  by intros [= <-].
Qed.

Lemma write_marker_existing cr fsys :
  path_exists fsys (get_done_file cr) = true -> write_marker cr fsys = inr fsys.
Proof. unfold write_marker. by intros ->. Qed.

Lemma get_done_file_length cr : length (get_done_file cr) = (length (cr_output_dir cr) + 2)%nat.
Proof. unfold get_done_file. by rewrite length_app. Qed.

Lemma is_file_lookup fsys p : is_file fsys p = true <-> exists c, lookup_node fsys p = Some (File c).
Proof.
  unfold is_file. destruct (lookup_node fsys p) as [[c|]|]; split; try done;
    try (by intros [? ?]). eauto.
Qed.

Lemma path_exists_lookup fsys p : path_exists fsys p = true <-> is_Some (lookup_node fsys p).
Proof.
  unfold path_exists. destruct (lookup_node fsys p); split; try done;
    try (by intros [? ?]).
Qed.

Lemma write_marker_inv cr fsys fsys' :
  write_marker cr fsys = inr fsys' -> path_exists fsys (get_done_file cr) = false ->
  exists fsys1,
    makedirs (dirname (get_done_file cr)) fsys = inr fsys1 /\
    write_fs (get_done_file cr) (Bytes EmptyString) fsys1 = inr fsys'.
Proof.
  unfold write_marker. intros H Hf. rewrite Hf in H.
  case_bool_decide; [discriminate|]. cbn in H.
  destruct (makedirs (dirname (get_done_file cr)) fsys) as [e|fsys1]; [discriminate|].
  by exists fsys1.
Qed.

Lemma write_marker_marks cr fsys fsys' :
  write_marker cr fsys = inr fsys' -> path_exists fsys' (get_done_file cr) = true.
Proof.
  intros H. destruct (path_exists fsys (get_done_file cr)) eqn:Hf.
  - rewrite write_marker_existing in H by done. by injection H as <-.
  - destruct (write_marker_inv cr fsys fsys' H Hf) as (fsys1 & _ & Hw).
    apply path_exists_lookup. eexists. by eapply write_fs_at.
Qed.

(** Marking a step leaves every existing path as it is, in particular
    every other marker. *)
Lemma write_marker_preserves cr fsys fsys' q n :
  write_marker cr fsys = inr fsys' ->
  lookup_node fsys q = Some n -> lookup_node fsys' q = Some n.
Proof.
  intros H Hq. destruct (path_exists fsys (get_done_file cr)) eqn:Hf.
  - rewrite write_marker_existing in H by done. by injection H as <-.
  - destruct (write_marker_inv cr fsys fsys' H Hf) as (fsys1 & Hm & Hw).
    assert (q <> get_done_file cr) as Hne.
    { intros ->. unfold path_exists in Hf. by rewrite Hq in Hf. }
    rewrite (write_fs_other _ _ _ _ q Hw Hne).
    by apply (makedirs_from_preserves _ _ _ _ _ _ Hm).
Qed.

Lemma write_marker_parents cr fsys fsys' k :
  write_marker cr fsys = inr fsys' -> path_exists fsys (get_done_file cr) = false ->
  (k < length (get_done_file cr))%nat ->
  is_dir fsys' (take k (get_done_file cr)) = true.
Proof.
  intros H Hf Hk.
  destruct (write_marker_inv cr fsys fsys' H Hf) as (fsys1 & Hm & Hw).
  pose proof (makedirs_from_dirs [] _ fsys fsys1 k Hm eq_refl) as Hd.
  unfold dirname in Hd. rewrite length_take, take_take in Hd.
  replace (k `min` (length (get_done_file cr) - 1))%nat with k in Hd by lia.
  specialize (Hd ltac:(lia)). cbn [app] in Hd.
  unfold is_dir in *. rewrite (write_fs_other _ _ _ _ _ Hw); [done|].
  intros Heq. apply (f_equal length) in Heq. rewrite length_take in Heq. lia.
Qed.

(** C2. [done()] leaves the world as it is and returns true exactly when
    the marker of the selected step exists and [force] was not requested;
    under [force] it returns false for every step, whatever markers exist,
    so [modisco_report_all] runs and marks every command again; and neither
    [done()] nor the [write()] of a re-run removes or changes an existing
    path, so no earlier marker is deleted. *)
Theorem C2_done_iff_marker_and_not_force :
  (forall cr w, exists b,
     done cr w = (w, inr b) /\
     (b = true <->
      path_exists (fs w) (get_done_file cr) = true /\ force cr = false)) /\
  (forall cr step w,
     force cr = true -> done (set_cmd step cr) w = (w, inr false)) /\
  (forall perform cr c w,
     force cr = true ->
     conditional_run perform cr c w =
       (exec perform c;; write (set_cmd (command_name c) cr)) w) /\
  (forall cr w w' q n,
     write cr w = (w', inr tt) ->
     lookup_node (fs w) q = Some n -> lookup_node (fs w') q = Some n).
Proof.
  split_and!.
  - intros cr w. eexists. split; [reflexivity|].
    rewrite andb_true_iff, negb_true_iff. done.
  - intros cr step w Hf. unfold done. cbn. rewrite Hf. by rewrite andb_false_r.
  - intros perform cr c w Hf. unfold conditional_run, done, mbind, M_bind. cbn.
    rewrite Hf, andb_false_r. reflexivity.
  - intros cr w w' q n H Hq. apply on_fs_inv in H as (H & _).
    by eapply write_marker_preserves.
Qed.

(** C6. [write()] on a step whose marker exists changes nothing and does
    not raise; after a [write()] that returned, a second one is such a
    no-op and [done()] is true unless [force] was requested; and a
    [write()] that creates the marker leaves every directory above it in
    place. *)
Theorem C6_write_idempotent :
  (forall cr w,
     path_exists (fs w) (get_done_file cr) = true -> write cr w = (w, inr tt)) /\
  (forall cr w w',
     write cr w = (w', inr tt) ->
     write cr w' = (w', inr tt) /\
     (force cr = false -> done cr w' = (w', inr true))) /\
  (forall cr w w' k,
     write cr w = (w', inr tt) ->
     path_exists (fs w) (get_done_file cr) = false ->
     (k < length (get_done_file cr))%nat ->
     is_dir (fs w') (take k (get_done_file cr)) = true).
Proof.
  assert (forall cr w,
     path_exists (fs w) (get_done_file cr) = true -> write cr w = (w, inr tt))
    as Hnoop.
  { intros cr w Hf. unfold write.
    rewrite (on_fs_ok _ w (fs w)) by by apply write_marker_existing.
    by rewrite world_eta. }
  split_and!.
  - exact Hnoop.
  - intros cr w w' H. apply on_fs_inv in H as (H & _).
    apply write_marker_marks in H. split; [by apply Hnoop|].
    intros Hf. unfold done. by rewrite H, Hf.
  - intros cr w w' k H Hf Hk. apply on_fs_inv in H as (H & _).
    by eapply write_marker_parents.
Qed.

(** *** [modisco_report_all] without patterns *)

Lemma touch_fs_touchable fsys p :
  touchable fsys p -> exists fsys', touch_fs p fsys = inr fsys'.
Proof.
  intros [Hf|(Hn & Hd & Hr)].
  - apply is_file_lookup in Hf as [c Hc]. eexists. by eapply touch_fs_existing.
  - eexists. by apply touch_fs_creatable.
Qed.

Lemma touch_fs_readonly p fsys fsys' :
  touch_fs p fsys = inr fsys' -> readonly fsys' = readonly fsys.
Proof.
  unfold touch_fs. intros H.
  destruct (lookup_node fsys p) as [[c0|]|]; try discriminate.
  - by injection H as <-.
  - destruct (create_check fsys p) as [e|[]]; [discriminate|]. by injection H as <-.
Qed.

Lemma touchable_other fsys fsys' p q :
  touch_fs p fsys = inr fsys' -> q <> p -> dirname q <> p ->
  touchable fsys q -> touchable fsys' q.
Proof.
  intros H Hq Hd. unfold touchable, is_file, is_dir.
  rewrite (touch_fs_other _ _ _ q H Hq), (touch_fs_other _ _ _ (dirname q) H Hd),
    (touch_fs_readonly _ _ _ H). done.
Qed.

Lemma dirname_app_two (d : path) x y : dirname (d ++ [x; y]) = d ++ [x].
Proof.
  unfold dirname. rewrite length_app. cbn [length].
  replace (length d + 2 - 1)%nat with (length (d ++ [x])) by (rewrite length_app; cbn; lia).
  replace (d ++ [x; y]) with ((d ++ [x]) ++ [y]) by (by rewrite <- app_assoc).
  by rewrite take_app_length.
Qed.

Lemma dirname_app_one (d : path) x : dirname (d ++ [x]) = d.
Proof.
  unfold dirname. rewrite length_app. cbn [length].
  replace (length d + 1 - 1)%nat with (length d) by lia.
  by rewrite take_app_length.
Qed.

(** C10 as the code has it. When the modisco result holds no pattern and
    both [results.html] and [seqlets/scored_regions.bed] can be touched
    (in particular the [seqlets] directory exists), [modisco_report_all]
    touches the two files and returns: both are files afterwards, empty if
    they were missing and unchanged if they existed; no report command is
    run, whatever the commands would do; and every other path, the step
    markers included, is as it was. *)
Theorem C10_no_patterns_touches_outputs :
  forall mr_patterns load_contribsf perform modisco_dir scan_instances force
         w w1 contrib_scores,
    read_json_contrib_file (modisco_dir ++ ["modisco-run.kwargs.json"]) w
      = (w, inr contrib_scores) ->
    mr_patterns (modisco_dir ++ ["modisco.h5"]) w = (w1, inr []) ->
    touchable (fs w1) (results_html modisco_dir) ->
    touchable (fs w1) (scored_regions_bed modisco_dir) ->
    exists w2,
      modisco_report_all mr_patterns load_contribsf perform modisco_dir
        scan_instances force w = (w2, inr tt) /\
      executed w2 = executed w1 /\
      (forall p, p = results_html modisco_dir \/ p = scored_regions_bed modisco_dir ->
         lookup_node (fs w2) p =
           Some (File (match lookup_node (fs w1) p with
                       | Some (File c) => c
                       | _ => Bytes EmptyString
                       end))) /\
      (forall q, q <> results_html modisco_dir -> q <> scored_regions_bed modisco_dir ->
         lookup_node (fs w2) q = lookup_node (fs w1) q) /\
      (forall c,
         let marker := get_done_file (set_cmd (command_name c)
                         (mkConditionalRun "modisco_report_all" None modisco_dir force)) in
         lookup_node (fs w2) marker = lookup_node (fs w1) marker).
Proof.
  intros mr_patterns load_contribsf perform modisco_dir scan_instances force
    w w1 contrib_scores Hread Hpat Hhtml Hbed.
  assert (results_html modisco_dir <> scored_regions_bed modisco_dir) as Hne.
  { unfold results_html, scored_regions_bed. intros Heq.
    apply (f_equal length) in Heq. rewrite !length_app in Heq. cbn in Heq. lia. }
  destruct (touch_fs_touchable _ _ Hhtml) as (f1 & Hf1).
  assert (touchable f1 (scored_regions_bed modisco_dir)) as Hbed'.
  { eapply touchable_other; eauto.
    unfold scored_regions_bed, results_html. rewrite dirname_app_two.
    intros Heq. by apply app_inv_head in Heq. }
  destruct (touch_fs_touchable _ _ Hbed') as (f2 & Hf2).
  exists (mkWorld f2 (environ w1) (executed w1)).
  assert (forall q, q <> results_html modisco_dir -> q <> scored_regions_bed modisco_dir ->
            lookup_node f2 q = lookup_node (fs w1) q) as Hother.
  { intros q H1 H2.
    by rewrite (touch_fs_other _ _ _ q Hf2 H2), (touch_fs_other _ _ _ q Hf1 H1). }
  split_and!.
  - unfold modisco_report_all, mbind, M_bind. rewrite Hread, Hpat. cbn [length].
    rewrite bool_decide_eq_true_2 by done.
    unfold touch. fold (results_html modisco_dir) (scored_regions_bed modisco_dir).
    rewrite (on_fs_ok _ w1 f1 Hf1).
    by rewrite (on_fs_ok (touch_fs (scored_regions_bed modisco_dir))
                  (mkWorld f1 (environ w1) (executed w1)) f2 Hf2).
  - done.
  - cbn [fs]. intros p [->| ->].
    + rewrite (touch_fs_other _ _ _ _ Hf2 Hne). by apply touch_fs_at.
    + rewrite (touch_fs_at _ _ _ Hf2).
      by rewrite (touch_fs_other _ _ _ _ Hf1 (not_eq_sym Hne)).
  - exact Hother.
  - intros c marker. cbn [fs]. apply Hother; subst marker;
      unfold get_done_file, results_html, scored_regions_bed; cbn [cr_output_dir];
      intros Heq.
    + apply (f_equal length) in Heq. rewrite !length_app in Heq. cbn in Heq. lia.
    + apply app_inv_head in Heq. discriminate.
Qed.

(** *** [bpnet_modisco_run] and a task that is not known *)

Lemma figure_subset_tasks_app pre rest tasks subset :
  figure_subset_tasks (pre ++ rest) tasks subset =
    (s ← figure_subset_tasks pre tasks subset; figure_subset_tasks rest tasks s).
Proof.
  revert subset. induction pre as [|w pre IH]; intros subset; [reflexivity|].
  cbn [app figure_subset_tasks].
  destruct (split "/" w) as [|task [|head [|head_summary [|]]]]; try reflexivity.
  destruct (String.eqb task "*"); [apply IH|].
  case_bool_decide; [|reflexivity].
  destruct subset; [apply IH|reflexivity].
Qed.

Lemma figure_subset_tasks_unknown entry rest tasks subset task head head_summary :
  split "/" entry = [task; head; head_summary] ->
  task <> "*" -> task ∉ tasks ->
  figure_subset_tasks (entry :: rest) tasks subset = inl ValueError.
Proof.
  intros Hs Hstar Hin. cbn [figure_subset_tasks]. rewrite Hs.
  apply String.eqb_neq in Hstar. rewrite Hstar.
  by rewrite bool_decide_eq_false_2.
Qed.

(** A run that gets past the loop was given known tasks only. *)
Lemma figure_subset_tasks_ok entries tasks subset r :
  figure_subset_tasks entries tasks subset = inr r ->
  Forall (fun w => exists task head head_summary,
            split "/" w = [task; head; head_summary] /\
            (task = "*" \/ task ∈ tasks)) entries.
Proof.
  revert subset. induction entries as [|w entries IH]; intros subset H; [constructor|].
  cbn [figure_subset_tasks] in H.
  destruct (split "/" w) as [|task [|head [|head_summary [|]]]] eqn:Hs;
    try discriminate.
  destruct (String.eqb task "*") eqn:Hstar.
  - apply String.eqb_eq in Hstar. constructor; [|by eapply IH].
    exists task, head, head_summary. auto.
  - case_bool_decide as Hin; [|discriminate].
    destruct subset; [|discriminate].
    constructor; [|by eapply IH]. exists task, head, head_summary. auto.
Qed.

(** C8 as the code has it. When an entry of [contrib_wildcard] names a
    task that is not among the tasks of the contribution file (and the
    entries before it are accepted), [bpnet_modisco_run] raises
    [ValueError] as soon as the tasks are read, and nothing after the check
    runs. The check is not the first thing the function does: earlier
    outputs have been removed, [modisco-run.kwargs.json] has been written
    and the gin configuration logged by then; the hyper-parameter file is
    in place before the tasks are read. *)
Theorem C8_unknown_task_raises_after_setup :
  forall add_file_logging create_tf_session remove_exists
         gin_parse_config_files_and_bindings log_gin_config cf_get_tasks
         run_on_subset
         (a : run_args) (w w1 w2 w3 : world) tasks
         pre entry rest task head head_summary subset,
    setup_outputs add_file_logging create_tf_session remove_exists a w
      = (w1, inr tt) ->
    save_kwargs a w1 = (w2, inr tt) ->
    configure_and_get_tasks gin_parse_config_files_and_bindings log_gin_config
      cf_get_tasks a w2 = (w3, inr tasks) ->
    split "," (contrib_wildcard a) = pre ++ entry :: rest ->
    figure_subset_tasks pre tasks (Some ∅) = inr subset ->
    split "/" entry = [task; head; head_summary] ->
    task <> "*" -> task ∉ tasks ->
    bpnet_modisco_run add_file_logging create_tf_session remove_exists
      gin_parse_config_files_and_bindings log_gin_config cf_get_tasks
      run_on_subset a w = (w3, inl ValueError) /\
    lookup_node (fs w2) (kwargs_json_file a)
      = Some (File (KwargsJson a (output_filter_npy a))).
Proof.
  intros add_file_logging create_tf_session remove_exists
    gin_parse_config_files_and_bindings log_gin_config cf_get_tasks run_on_subset
    a w w1 w2 w3 tasks pre entry rest task head head_summary subset
    Hsetup Hsave Htasks Hsplit Hpre Hentry Hstar Hin.
  split.
  - unfold bpnet_modisco_run, mbind at 1 2 3 4, M_bind, lift.
    rewrite Hsetup, Hsave, Htasks, Hsplit.
    rewrite figure_subset_tasks_app, Hpre. cbn [mbind result_bind].
    by rewrite (figure_subset_tasks_unknown _ _ _ _ _ _ _ Hentry Hstar Hin).
  - unfold save_kwargs, write_json in Hsave. apply on_fs_inv in Hsave as (Hw & _).
    by apply write_fs_at in Hw.
Qed.

End ModiscoFacts.

Module DemoFacts.
Import Swag Modisco SwagFacts ModiscoFacts Demo.

#[local] Open Scope Qc_scope.

(** *** The embedded functions on small inputs *)

Example split_wildcard : split "/" "Foo/profile/wn" = ["Foo"; "profile"; "wn"].
Proof. reflexivity. Qed.

Example split_entries : split "," "*/profile/wn,Oct4/counts/pre-act"
  = ["*/profile/wn"; "Oct4/counts/pre-act"].
Proof. reflexivity. Qed.

Example split_empty : split "," EmptyString = [EmptyString].
Proof. reflexivity. Qed.

Example all_tasks :
  figure_subset_tasks ["*/profile/wn"] ["Oct4"; "Sox2"] (Some ∅) = inr None.
Proof. reflexivity. Qed.

Example known_task :
  figure_subset_tasks ["Oct4/profile/wn"] ["Oct4"; "Sox2"] (Some ∅)
    = inr (Some ({["Oct4"]} ∪ ∅)).
Proof. reflexivity. Qed.

Example star_then_known_task :
  figure_subset_tasks ["*/profile/wn"; "Oct4/counts/pre-act"] ["Oct4"; "Sox2"]
    (Some ∅) = inl AttributeError.
Proof. reflexivity. Qed.

Example marker_of_modisco_plot :
  get_done_file (tracker false) = ["out"; ".modisco_report_all"; "modisco_plot.done"].
Proof. reflexivity. Qed.

Example second_epoch_mean :
  mean (on_epoch_end 1 [[Qc_of_Z 3]] one_epoch).1 = [NdArray [Qc_of_Z 2]].
Proof. by_evaluation. Qed.

Example second_epoch_deviation :
  cols (on_epoch_end 1 [[Qc_of_Z 3]] one_epoch).1
    = [[NdArray [Qc_of_Z 0]]; [NdArray [Qc_of_Z 1]]].
Proof. by_evaluation. Qed.

(** The writes of [on_train_end] are independent: when the second [open]
    fails the mean has been written, and the caller gets the error. *)
Example partial_write_is_reported :
  (on_train_end one_epoch diag_denied).2 = inl PermissionError /\
  files (on_train_end one_epoch diag_denied).1 !! "swag_mean.json"
    = Some (JArray [JArray [JNumber (Qc_of_Z 1)]]) /\
  files (on_train_end one_epoch diag_denied).1 !! "swag_diag.json" = None.
Proof. vm_compute. done. Qed.

(** *** Inputs on which a statement of the specification fails *)

(** C8, as stated, fails: with the unknown task [Foo] the run ends in
    [ValueError], but the hyper-parameter file, absent before, has been
    written and the process environment changed. *)
Lemma C8_counterexample :
  unknown_task_run.2 = inl ValueError /\
  lookup_node (fs empty_out) (kwargs_json_file unknown_task_args) = None /\
  lookup_node (fs unknown_task_run.1) (kwargs_json_file unknown_task_args)
    = Some (File (KwargsJson unknown_task_args (output_filter_npy unknown_task_args))) /\
  environ unknown_task_run.1 !! "CUDA_VISIBLE_DEVICES" = Some EmptyString.
Proof. vm_compute. done. Qed.

(** C10, as stated, fails: without a [seqlets] directory the second touch
    raises [FileNotFoundError] after [results.html] has been created. *)
Lemma C10_counterexample :
  (no_patterns_run no_seqlets_dir).2 = inl FileNotFoundError /\
  lookup_node (fs (no_patterns_run no_seqlets_dir).1) (scored_regions_bed ["out"]) = None /\
  lookup_node (fs (no_patterns_run no_seqlets_dir).1) (results_html ["out"])
    = Some (File (Bytes EmptyString)).
Proof. vm_compute. done. Qed.

(** *** The theorems at concrete inputs *)



Lemma C4_witness :
  exists self', on_epoch_end 3 [[Qc_of_Z 7]] (init "swag" 5 139) = (self', inr tt) /\
    mean self' = mean (init "swag" 5 139) /\
    moments self' = moments (init "swag" 5 139).
Proof.
  destruct C4_warmup_noop as (Hstep & _).
  apply (Hstep (init "swag" 5 139) 3%Z [[Qc_of_Z 7]]). cbn. lia.
Defined.


Lemma C9_witness :
  exists self',
    on_epoch_end 0 [[Qc_of_Z 1; Qc_of_Z 2]] (init "swag" 0 139) = (self', inr tt) /\
    length (mean self') = Nat.min 2000 1 /\
    length (moments self') = Nat.min 2000 1 /\
    (0%Z = 0%Z ->
     mean self' = NdArray <$> take 2000 [[Qc_of_Z 1; Qc_of_Z 2]] /\
     (mean self' = NdArray <$> [[Qc_of_Z 1; Qc_of_Z 2]] <-> (1 <= 2000)%nat)).
Proof.
  apply (C9_fixed_capacity_truncates "swag" 0%Z 139%Z 0%Z [[Qc_of_Z 1; Qc_of_Z 2]]).
  lia.
Defined.

Lemma C2_witness :
  done (set_cmd "modisco_report" (tracker true)) with_seqlets_dir
    = (with_seqlets_dir, inr false).
Proof.
  destruct C2_done_iff_marker_and_not_force as (_ & Hforce & _).
  apply (Hforce (tracker true) "modisco_report" with_seqlets_dir). reflexivity.
Defined.

Lemma C6_witness :
  write (tracker false) (write (tracker false) with_seqlets_dir).1
    = ((write (tracker false) with_seqlets_dir).1, inr tt) /\
  (force (tracker false) = false ->
   done (tracker false) (write (tracker false) with_seqlets_dir).1
     = ((write (tracker false) with_seqlets_dir).1, inr true)).
Proof.
  destruct C6_write_idempotent as (_ & Htwice & _).
  apply (Htwice (tracker false) with_seqlets_dir). vm_compute. reflexivity.
Defined.

Lemma C8_witness :
  bpnet_modisco_run no_logging no_session no_removal no_gin no_gin_log two_tasks
    no_rest unknown_task_args empty_out = (after_save, inl ValueError) /\
  lookup_node (fs after_save) (kwargs_json_file unknown_task_args)
    = Some (File (KwargsJson unknown_task_args (output_filter_npy unknown_task_args))).
Proof.
  apply (C8_unknown_task_raises_after_setup
    no_logging no_session no_removal no_gin no_gin_log two_tasks no_rest
    unknown_task_args empty_out after_setup after_save after_save
    ["Oct4"; "Sox2"] [] "Foo/profile/wn" [] "Foo" "profile" "wn" (Some ∅)).
  - vm_compute. reflexivity.
  - vm_compute. reflexivity.
  - vm_compute. reflexivity.
  - reflexivity.
  - reflexivity.
  - reflexivity.
  - discriminate.
  - intros Hin. apply elem_of_cons in Hin as [Heq|Hin]; [discriminate|].
    apply elem_of_cons in Hin as [Heq|Hin]; [discriminate|].
    by apply elem_of_nil in Hin.
Defined.

Lemma C10_witness :
  exists w2,
    no_patterns_run with_seqlets_dir = (w2, inr tt) /\
    executed w2 = [] /\
    lookup_node (fs w2) (results_html ["out"]) = Some (File (Bytes EmptyString)) /\
    lookup_node (fs w2) (scored_regions_bed ["out"]) = Some (File (Bytes EmptyString)).
Proof.
  destruct (C10_no_patterns_touches_outputs no_patterns no_contribsf no_work
              ["out"] false false with_seqlets_dir with_seqlets_dir
              ["data"; "contrib.h5"])
    as (w2 & Hrun & Hexec & Hfiles & _).
  - vm_compute. reflexivity.
  - reflexivity.
  - right. split_and!; [vm_compute; reflexivity|vm_compute; reflexivity|].
    apply not_elem_of_empty.
  - right. split_and!; [vm_compute; reflexivity|vm_compute; reflexivity|].
    apply not_elem_of_empty.
  - exists w2. split_and!; [exact Hrun|exact Hexec| |].
    + rewrite (Hfiles _ (or_introl eq_refl)). reflexivity.
    + rewrite (Hfiles _ (or_intror eq_refl)). reflexivity.
Defined.

End DemoFacts.

(** ** Further properties of the SWAG callback *)

Module SwagMoreFacts.
Import Swag SwagMore SwagFacts.

#[local] Open Scope Qc_scope.

(** *** Comprehensions, read backwards *)



(** *** Shapes *)

Lemma tensor_shape_tmap f t : tensor_shape (tmap f t) = tensor_shape t.
Proof. destruct t; cbn; [done|]. by rewrite length_fmap. Qed.

Lemma tbinop_shape f a (ys : ndarray) :
  match tbinop f a (NdArray ys) with
  | inr t => broadcast_shape (tensor_shape a) (length ys) = Some (tensor_shape t)
  | inl e => e = ValueError /\ broadcast_shape (tensor_shape a) (length ys) = None
  end.
Proof.
  destruct a as [x|xs]; cbn.
  - by rewrite length_fmap.
  - unfold broadcast, broadcast_shape.
    destruct (decide (length xs = length ys)) as [Heq|Hne]; cbn.
    + rewrite length_zip_with. do 2 f_equal. lia.
    + destruct xs as [|x [|x' xs]], ys as [|y [|y' ys]]; cbn in *;
        rewrite ?length_fmap; repeat case_decide; try lia; try done;
        cbn; do 2 f_equal; lia.
Qed.

Lemma mean_step_shape n prev (curr : ndarray) :
  match mean_step n prev curr with
  | inr t => broadcast_shape (tensor_shape prev) (length curr) = Some (tensor_shape t)
  | inl e => e = ValueError /\ broadcast_shape (tensor_shape prev) (length curr) = None
  end.
Proof.
  unfold mean_step, tadd, tscale.
  pose proof (tbinop_shape Qcplus (tmap (Qcmult (Qc_of_Z n)) prev) curr) as H.
  rewrite tensor_shape_tmap in H.
  destruct (tbinop Qcplus _ (NdArray curr)) as [e|t]; cbn; [done|].
  unfold tdiv. by rewrite tensor_shape_tmap.
Qed.

Lemma moment_step_shape n prev (curr : ndarray) :
  match moment_step n prev curr with
  | inr t => broadcast_shape (tensor_shape prev) (length curr) = Some (tensor_shape t)
  | inl e => e = ValueError /\ broadcast_shape (tensor_shape prev) (length curr) = None
  end.
Proof.
  unfold moment_step, tadd, tscale. cbn [tsquare tmap].
  pose proof (tbinop_shape Qcplus (tmap (Qcmult (Qc_of_Z n)) prev)
                ((fun x => x * x) <$> curr)) as H.
  rewrite tensor_shape_tmap, length_fmap in H.
  destruct (tbinop Qcplus _ (NdArray _)) as [e|t]; cbn; [done|].
  unfold tdiv. by rewrite tensor_shape_tmap.
Qed.

(** The deviation from a mean that was just computed from the same weights
    always exists. *)
Lemma deviation_after_mean_step n prev (curr : ndarray) m :
  mean_step n prev curr = inr m -> exists d, deviation m curr = inr d.
Proof.
  intros H. pose proof (mean_step_shape n prev curr) as Hs. rewrite H in Hs.
  unfold deviation, tsub. destruct m as [y|ys]; cbn; [by eexists|].
  unfold broadcast. destruct (decide (length curr = length ys)); [by eexists|].
  cbn in Hs. unfold broadcast_shape in Hs.
  destruct (tensor_shape prev) as [l|]; [|injection Hs as Hs; congruence].
  repeat case_decide; simplify_eq; try congruence.
  destruct curr as [|c [|c' curr]]; try done. by eexists.
Qed.

(** *** A call that raises *)

Lemma on_epoch_end_raise_inv (self self' : SWAGCallback) epoch weights e :
  on_epoch_end epoch weights self = (self', inl e) ->
  (start self <= epoch)%Z /\
  ((mapM (fun '(prev, curr) => mean_step (epoch - start self) prev curr)
      (zip (mean self) weights) = inl e /\ self' = self) \/
   (exists m,
      mapM (fun '(prev, curr) => mean_step (epoch - start self) prev curr)
        (zip (mean self) weights) = inr m /\
      (mapM (fun '(prev, (_, curr)) => moment_step (epoch - start self) prev curr)
         (zip (moments self) (zip m weights)) = inl e \/
       mapM (fun '(mean, curr) => deviation mean curr) (zip m weights) = inl e) /\
      mean self' = m /\ cols self' = cols self /\ rank self' = rank self /\
      start self' = start self /\ output_prefix self' = output_prefix self /\
      (mapM (fun '(prev, (_, curr)) => moment_step (epoch - start self) prev curr)
         (zip (moments self) (zip m weights)) = inl e ->
       moments self' = moments self))).
Proof.
  intros H. destruct (decide (start self <= epoch)%Z) as [Hge|Hlt].
  2:{ rewrite on_epoch_end_warmup in H by lia. discriminate. }
  split; [done|].
  unfold on_epoch_end, mbind, M_bind, get, lift in H. step_in H.
  rewrite bool_decide_eq_true_2 in H by lia. step_in H.
  destruct (mapM (fun '(prev, curr) => mean_step (epoch - start self) prev curr)
              (zip (mean self) weights)) as [e1|m] eqn:Em; step_in H.
  { injection H as <- <-. by left. }
  right. exists m. split; [done|].
  destruct (mapM (fun '(prev, (_, curr)) => moment_step (epoch - start self) prev curr)
              (zip (moments self) (zip m weights))) as [e2|q] eqn:Eq; step_in H.
  { injection H as <- <-. split_and!; auto. }
  destruct (mapM (fun '(mean, curr) => deviation mean curr) (zip m weights))
    as [e3|c] eqn:Ec; step_in H.
  { injection H as <- <-. split_and!; auto. discriminate. }
  destruct (bool_decide _) in H; discriminate.
Qed.

Lemma deviations_after_means n (ms : list tensor) (weights : list ndarray) m :
  mapM (fun '(prev, curr) => mean_step n prev curr) (zip ms weights) = inr m ->
  exists c, mapM (fun '(mean, curr) => deviation mean curr) (zip m weights) = inr c.
Proof.
  revert weights m. induction ms as [|t ms IH]; intros [|a w] m H;
    try (injection H as <-; by exists []).
  cbn [zip_with] in H. rewrite mapM_result_cons in H.
  destruct (mean_step n t a) as [e|t'] eqn:Ht; [discriminate|].
  destruct (mapM _ (zip ms w)) as [e|m'] eqn:Hm; [discriminate|].
  injection H as <-. destruct (IH w m' Hm) as (c & Hc).
  destruct (deviation_after_mean_step n t a t' Ht) as (d & Hd).
  exists (d :: c). cbn [zip_with]. by rewrite mapM_result_cons, Hd, Hc.
Qed.



(** With sizes aligned, the second-moment comprehension succeeds whenever
    the mean comprehension did, and the results are aligned again. *)
Lemma moments_after_means n (qs ms : list tensor) (weights : list ndarray) m :
  tensor_shape <$> qs = tensor_shape <$> ms ->
  mapM (fun '(prev, curr) => mean_step n prev curr) (zip ms weights) = inr m ->
  exists q,
    mapM (fun '(prev, (_, curr)) => moment_step n prev curr)
      (zip qs (zip m weights)) = inr q /\
    tensor_shape <$> q = tensor_shape <$> m.
Proof.
  revert qs weights m. induction ms as [|t ms IH]; intros [|s qs] [|a w] m Hs H;
    try discriminate; try (injection H as <-; by exists []).
  cbn [zip_with] in H. rewrite mapM_result_cons in H.
  destruct (mean_step n t a) as [e|t'] eqn:Ht; [discriminate|].
  destruct (mapM _ (zip ms w)) as [e|m'] eqn:Hm; [discriminate|].
  injection H as <-. cbn in Hs. injection Hs as Hs1 Hs.
  destruct (IH qs w m' Hs Hm) as (q & Hq & Hqs).
  pose proof (mean_step_shape n t a) as Ha. rewrite Ht in Ha.
  pose proof (moment_step_shape n s a) as Hb. rewrite Hs1, Ha in Hb.
  destruct (moment_step n s a) as [e|s'] eqn:Hs'; [by destruct Hb|].
  exists (s' :: q). cbn [zip_with]. rewrite mapM_result_cons, Hs', Hq.
  split; [done|]. cbn. f_equal; [congruence|done].
Qed.

Lemma aligned_evict self : aligned self -> aligned (evict self).
Proof. unfold aligned. by rewrite mean_evict, moments_evict. Qed.

Lemma on_epoch_end_aligned (self self' : SWAGCallback) epoch weights :
  aligned self -> on_epoch_end epoch weights self = (self', inr tt) -> aligned self'.
Proof.
  intros Ha H. destruct (decide (start self <= epoch)%Z) as [Hge|Hlt].
  - destruct (on_epoch_end_inv self self' epoch weights Hge H)
      as (m & q & c & Em & Eq & _ & ->).
    apply aligned_evict. unfold aligned. cbn [mean moments].
    destruct (moments_after_means _ _ _ _ _ Ha Em) as (q2 & Eq2 & Hs). congruence.
  - rewrite on_epoch_end_warmup in H by lia. injection H as <-.
    by apply aligned_evict.
Qed.

Lemma on_epoch_end_lengths (self self' : SWAGCallback) epoch weights :
  on_epoch_end epoch weights self = (self', inr tt) ->
  (length (mean self') <= length (mean self))%nat.
Proof.
  intros H. destruct (decide (start self <= epoch)%Z) as [Hge|Hlt].
  - destruct (on_epoch_end_inv self self' epoch weights Hge H)
      as (m & q & c & Em & _ & _ & ->).
    rewrite mean_evict. cbn [mean]. apply mapM_result_length in Em.
    rewrite Em, length_zip_with. lia.
  - rewrite on_epoch_end_warmup in H by lia. injection H as <-.
    by rewrite mean_evict.
Qed.

Lemma on_epochs_aligned calls (self self' : SWAGCallback) :
  aligned self -> on_epochs calls self = (self', inr tt) ->
  aligned self' /\ (length (mean self') <= length (mean self))%nat.
Proof.
  revert self. induction calls as [|[epoch w] calls IH]; intros self Ha H.
  - rewrite on_epochs_nil in H. by injection H as <-.
  - rewrite on_epochs_cons in H.
    destruct (on_epoch_end epoch w self) as [s1 [e|[]]] eqn:E1; [discriminate|].
    destruct (IH s1 (on_epoch_end_aligned _ _ _ _ Ha E1) H) as (Ha' & Hl).
    split; [done|]. pose proof (on_epoch_end_lengths _ _ _ _ E1). lia.
Qed.

Lemma aligned_init prefix st rk : aligned (init prefix st rk).
Proof. reflexivity. Qed.


(** X5. On a callback that has only been driven through its hooks since it was
    built, a call that raises leaves the whole state as it was: the three
    updates of an epoch happen together or not at all. *)
Theorem on_epoch_end_atomic_after_init :
  forall prefix st rk calls (self self' : SWAGCallback) epoch weights e,
    on_epochs calls (init prefix st rk) = (self, inr tt) ->
    on_epoch_end epoch weights self = (self', inl e) ->
    self' = self.
Proof.
  intros prefix st rk calls self self' epoch weights e Hrun H.
  destruct (on_epochs_aligned _ _ _ (aligned_init prefix st rk) Hrun) as (Ha & _).
  destruct (on_epoch_end_raise_inv _ _ _ _ _ H) as (Hge & [(Em & ->)|Hm]); [done|].
  destruct Hm as (m & Em & [Eq|Ec] & _).
  - destruct (moments_after_means _ _ _ _ _ Ha Em) as (q & Eq' & _). congruence.
  - destruct (deviations_after_means _ _ _ _ Em) as (c & Hc'). congruence.
Qed.

(** X6. Over any run from a fresh callback that returns, [mean] and [moments]
    keep the same number of tensors, of the same sizes, never more than the
    2000 slots they started with. *)
Theorem stats_aligned_after_init :
  forall prefix st rk calls (self : SWAGCallback),
    on_epochs calls (init prefix st rk) = (self, inr tt) ->
    tensor_shape <$> moments self = tensor_shape <$> mean self /\
    length (moments self) = length (mean self) /\
    (length (mean self) <= 2000)%nat.
Proof.
  intros prefix st rk calls self Hrun.
  destruct (on_epochs_aligned _ _ _ (aligned_init prefix st rk) Hrun) as (Ha & Hl).
  split; [exact Ha|]. split.
  - apply (f_equal length) in Ha. by rewrite !length_fmap in Ha.
  - cbn [mean init] in Hl. by rewrite length_replicate in Hl.
Qed.

(** *** The diagonal is never negative *)















(** *** The running second moment and the variance *)







(** *** A buffer without capacity *)

Lemma on_epoch_end_no_capacity (self self' : SWAGCallback) epoch weights :
  (rank self <= 0)%Z -> cols self = [] ->
  on_epoch_end epoch weights self = (self', inr tt) -> cols self' = [].
Proof.
  intros Hr Hc H. destruct (on_epoch_end_cols _ _ _ _ H) as (_ & _ & ->).
  rewrite Hc. unfold evict_cols.
  destruct (bool_decide (epoch >= start self)%Z); cbn [app length].
  - by rewrite bool_decide_eq_true_2 by lia.
  - by case_bool_decide.
Qed.

(** X7. With [rank <= 0] no deviation is ever kept: after any run of the hook
    from a fresh callback that returns, the buffer is empty, and
    [on_train_end] has the empty list to write to the columns file. *)
Theorem no_deviation_is_kept_without_rank :
  forall prefix st rk calls (self : SWAGCallback),
    (rk <= 0)%Z ->
    on_epochs calls (init prefix st rk) = (self, inr tt) ->
    cols self = [] /\ cols_json self = inr (JArray []).
Proof.
  intros prefix st rk calls self Hrk Hrun.
  assert (forall s0 : SWAGCallback,
            (rank s0 <= 0)%Z -> cols s0 = [] ->
            on_epochs calls s0 = (self, inr tt) -> cols self = []) as Hind.
  { clear Hrun. induction calls as [|[epoch w] calls IH]; intros s0 Hr Hc H.
    - rewrite on_epochs_nil in H. by injection H as <-.
    - rewrite on_epochs_cons in H.
      destruct (on_epoch_end epoch w s0) as [s1 [e|[]]] eqn:E1; [discriminate|].
      destruct (on_epoch_end_cols _ _ _ _ E1) as (Hr1 & _ & _).
      apply (IH s1); [by rewrite Hr1|by eapply on_epoch_end_no_capacity|done]. }
  assert (cols self = []) as Hc by (by apply (Hind (init prefix st rk))).
  split; [done|]. unfold cols_json. by rewrite Hc.
Qed.

(** *** What [on_train_end] leaves alone *)

(** X9. Whether it returns or raises, [on_train_end] changes no file but its
    three outputs. *)
Theorem on_train_end_touches_only_its_files :
  forall (self : SWAGCallback) (fs fs' : filestore) r,
    on_train_end self fs = (fs', r) ->
    denied fs' = denied fs /\
    forall path,
      path <> mean_path self -> path <> diag_path self -> path <> cols_path self ->
      files fs' !! path = files fs !! path.
Proof.
  intros self fs fs' r H. rewrite on_train_end_unfold in H.
  destruct (mean_json self) as [e|m]; [by injection H as <- _|].
  case_bool_decide; [by injection H as <- _|]. cbn zeta in H.
  destruct (diag_json self) as [e|d].
  { injection H as <- _. split; [done|]. intros path Hp1 _ _.
    unfold write_file. cbn [files]. by rewrite lookup_insert_ne. }
  case_bool_decide.
  { injection H as <- _. split; [done|]. intros path Hp1 _ _.
    unfold write_file. cbn [files]. by rewrite lookup_insert_ne. }
  destruct (cols_json self) as [e|c].
  { injection H as <- _. split; [done|]. intros path Hp1 Hp2 _.
    unfold write_file. cbn [files]. by rewrite !lookup_insert_ne. }
  case_bool_decide.
  { injection H as <- _. split; [done|]. intros path Hp1 Hp2 _.
    unfold write_file. cbn [files]. by rewrite !lookup_insert_ne. }
  injection H as <- _. split; [done|]. intros path Hp1 Hp2 Hp3.
  unfold write_file. cbn [files]. by rewrite !lookup_insert_ne.
Qed.

End SwagMoreFacts.

(** ** Further properties of the modisco drivers *)

Module ModiscoMoreFacts.
Import Modisco ModiscoMore ModiscoFacts.

Lemma split_nonempty sep s : split sep s <> [].
Proof.
  destruct s as [|c s]; cbn; [done|].
  destruct (Ascii.eqb c sep); [done|]. by destruct (split sep s).
Qed.

Lemma join_split sep s : join sep (split sep s) = s.
Proof.
  induction s as [|c s IH]; [reflexivity|]. cbn [split].
  destruct (Ascii.eqb c sep) eqn:Hc.
  - apply Ascii.eqb_eq in Hc as ->.
    pose proof (split_nonempty sep s).
    destruct (split sep s) as [|hd tl] eqn:Hs; [done|].
    change (join sep (EmptyString :: hd :: tl))
      with (EmptyString +:+ String sep (join sep (hd :: tl))).
    by rewrite IH.
  - pose proof (split_nonempty sep s).
    destruct (split sep s) as [|hd tl] eqn:Hs; [done|].
    destruct tl as [|hd' tl]; cbn in IH |- *; by rewrite <- IH.
Qed.

Lemma split1_split sep s :
  split1 sep s =
    match split sep s with
    | [] => []
    | [x] => [x]
    | x :: rest => [x; join sep rest]
    end.
Proof.
  induction s as [|c s IH]; [reflexivity|]. cbn [split split1].
  destruct (Ascii.eqb c sep) eqn:Hc.
  - pose proof (split_nonempty sep s).
    destruct (split sep s) as [|hd tl] eqn:Hs; [done|].
    by rewrite <- Hs, join_split.
  - rewrite IH. pose proof (split_nonempty sep s).
    destruct (split sep s) as [|hd [|hd' tl]] eqn:Hs; done.
Qed.

Lemma contrib_key_split w task head head_summary :
  split "/" w = [task; head; head_summary] ->
  contrib_key task head head_summary = w.
Proof.
  intros Hs. rewrite <- (join_split "/" w), Hs. reflexivity.
Qed.

(** *** Which wildcards [bpnet_modisco_run] accepts *)

Lemma is_star_split w :
  is_star w = true <-> exists head head_summary, split "/" w = ["*"; head; head_summary].
Proof.
  unfold is_star.
  destruct (split "/" w) as [|task [|head [|head_summary [|]]]]; split;
    try discriminate; try (by intros (? & ? & [=])).
  - intros ->%String.eqb_eq. eauto.
  - intros (? & ? & [= -> _ _]). done.
Qed.

Lemma is_named_split tasks w :
  is_named tasks w = true <->
  exists task head head_summary,
    split "/" w = [task; head; head_summary] /\ task <> "*" /\ task ∈ tasks.
Proof.
  unfold is_named.
  destruct (split "/" w) as [|task [|head [|head_summary [|]]]]; split;
    try discriminate; try (by intros (? & ? & ? & [=] & _)).
  - intros [Hs Hin]%andb_prop. apply negb_true_iff, String.eqb_neq in Hs.
    apply bool_decide_eq_true in Hin. eauto 6.
  - intros (? & ? & ? & [= <- _ _] & Hs & Hin).
    apply String.eqb_neq in Hs. rewrite Hs. cbn. by apply bool_decide_eq_true.
Qed.

Lemma figure_subset_tasks_stars entries tasks r :
  figure_subset_tasks entries tasks None = inr r <->
  forallb is_star entries = true /\ r = None.
Proof.
  induction entries as [|w entries IH]; cbn [figure_subset_tasks forallb].
  - split; [by intros [= <-]|by intros [_ ->]].
  - unfold is_star at 1.
    destruct (split "/" w) as [|task [|head [|head_summary [|]]]];
      try (split; [discriminate|by intros [[=] _]]).
    destruct (String.eqb task "*"); cbn [andb].
    + exact IH.
    + case_bool_decide; (split; [discriminate|by intros [[=] _]]).
Qed.

Lemma union_singleton_assoc (t : string) (X s0 : gset string) :
  X ∪ ({[t]} ∪ s0) = ({[t]} ∪ X) ∪ s0.
Proof. apply set_eq. intros x. rewrite !elem_of_union. tauto. Qed.

Lemma figure_subset_tasks_from entries tasks (s0 : gset string) r :
  figure_subset_tasks entries tasks (Some s0) = inr r <->
  exists named stars,
    entries = named ++ stars /\
    forallb (is_named tasks) named = true /\ forallb is_star stars = true /\
    r = if decide (stars = [])
        then Some (list_to_set (entry_task <$> named) ∪ s0) else None.
Proof.
  revert s0. induction entries as [|w entries IH]; intros s0.
  - cbn [figure_subset_tasks]. split.
    + intros [= <-]. exists [], []. split_and!; try done.
      rewrite decide_True by done. f_equal. cbn. by rewrite (left_id_L ∅ (∪)).
    + intros (named & stars & Happ & _ & _ & ->).
      symmetry in Happ. apply app_eq_nil in Happ as [-> ->].
      rewrite decide_True by done. cbn. by rewrite (left_id_L ∅ (∪)).
  - cbn [figure_subset_tasks]. split.
    + destruct (split "/" w) as [|task [|head [|head_summary [|]]]] eqn:Hs;
        try discriminate.
      destruct (String.eqb task "*") eqn:Hstar.
      * intros [Hall ->]%figure_subset_tasks_stars.
        exists [], (w :: entries). split_and!; try done.
        cbn [forallb]. rewrite Hall, andb_true_r.
        unfold is_star. by rewrite Hs.
      * case_bool_decide as Hin; [|discriminate].
        intros (named & stars & -> & Hn & Hst & ->)%IH.
        exists (w :: named), stars. split_and!; try done.
        -- cbn [forallb]. rewrite Hn, andb_true_r.
           unfold is_named. rewrite Hs, Hstar. by apply bool_decide_eq_true.
        -- destruct (decide (stars = [])); [|done]. f_equal.
           cbn [fmap list_fmap list_to_set]. unfold entry_task at 2. rewrite Hs.
           cbn -[union]. apply union_singleton_assoc.
    + intros (named & stars & Happ & Hn & Hst & ->).
      destruct named as [|w' named].
      * cbn in Happ. subst stars. rewrite decide_False by done.
        cbn [forallb] in Hst. apply andb_prop in Hst as [Hw Hst].
        apply is_star_split in Hw as (head & head_summary & ->).
        cbn. by apply figure_subset_tasks_stars.
      * injection Happ as <- ->. cbn [forallb] in Hn.
        apply andb_prop in Hn as [Hw Hn].
        apply is_named_split in Hw as (task & head & head_summary & Hs & Hstar & Hin).
        rewrite Hs. apply String.eqb_neq in Hstar. rewrite Hstar.
        rewrite bool_decide_eq_true_2 by done.
        apply IH. exists named, stars. split_and!; try done.
        destruct (decide (stars = [])); [|done]. f_equal.
        cbn [fmap list_fmap list_to_set]. unfold entry_task at 1. rewrite Hs.
        cbn -[union]. symmetry. apply union_singleton_assoc.
Qed.

(** X10. The loop that figures out [subset_tasks] returns exactly for the
    wildcards made of entries [task/head/summary] that name known tasks,
    followed by entries [*/head/summary] only; it then returns the set of
    the named tasks, or [None] (all tasks) as soon as there is one ['*']
    entry. Every other wildcard raises: an entry that has not three parts,
    an unknown task, and also a known task named after a ['*'] entry. *)
Theorem figure_subset_tasks_returns :
  forall entries tasks r,
    figure_subset_tasks entries tasks (Some ∅) = inr r <->
    exists named stars,
      entries = named ++ stars /\
      forallb (is_named tasks) named = true /\ forallb is_star stars = true /\
      r = if decide (stars = [])
          then Some (list_to_set (entry_task <$> named)) else None.
Proof.
  intros entries tasks r. rewrite figure_subset_tasks_from.
  split; intros (named & stars & H1 & H2 & H3 & ->); exists named, stars;
    split_and!; try done; destruct (decide (stars = [])); try done;
    by rewrite (right_id_L ∅ (∪)).
Qed.

(** X11. A known task named after a ['*'] entry: the set is [None] by then and
    [subset_tasks.add] raises [AttributeError], whatever follows. *)
Theorem name_after_star_raises_AttributeError :
  forall tasks pre wstar stars w post subset,
    figure_subset_tasks pre tasks (Some ∅) = inr subset ->
    is_star wstar = true -> forallb is_star stars = true ->
    is_named tasks w = true ->
    figure_subset_tasks (pre ++ wstar :: stars ++ w :: post) tasks (Some ∅)
      = inl AttributeError.
Proof.
  intros tasks pre wstar stars w post subset Hpre Hstar Hstars Hw.
  rewrite figure_subset_tasks_app, Hpre. cbn [mbind result_bind].
  change (wstar :: stars ++ w :: post) with ((wstar :: stars) ++ w :: post).
  rewrite figure_subset_tasks_app.
  assert (figure_subset_tasks (wstar :: stars) tasks subset = inr None) as ->.
  { apply is_star_split in Hstar as (h & s0 & Hs).
    cbn [figure_subset_tasks]. rewrite Hs. cbn.
    by apply figure_subset_tasks_stars. }
  cbn [mbind result_bind figure_subset_tasks].
  apply is_named_split in Hw as (t & h & s0 & Hs & Hne & Hin).
  rewrite Hs. apply String.eqb_neq in Hne. rewrite Hne.
  by rewrite bool_decide_eq_true_2.
Qed.

(** *** The contribution scores [bpnet_modisco_run] fetches *)

Section fetch_facts.
Context {A : Type}.
Variable fetch : string -> result A.

Lemma fetch_keys_app keys1 keys2 (acc : fetched A) :
  fetch_keys fetch (keys1 ++ keys2) acc =
    (acc' ← fetch_keys fetch keys1 acc; fetch_keys fetch keys2 acc').
Proof.
  revert acc. induction keys1 as [|key keys1 IH]; intros acc; [reflexivity|].
  cbn [app fetch_keys]. destruct (fetch key) as [e|v]; [reflexivity|]. apply IH.
Qed.

Lemma default_last_cons {B} (a b x : B) (l : list B) :
  default a (last (x :: l)) = default b (last (x :: l)).
Proof. revert x. induction l as [|y l IH]; intros x; [reflexivity|apply IH]. Qed.

Lemma fetch_tasks_keys head head_summary use_tasks task (acc : fetched A) :
  fetch_tasks fetch head head_summary use_tasks task acc =
    (acc' ← fetch_keys fetch
              ((fun task => contrib_key task head head_summary) <$> use_tasks) acc;
     mret (default task (last use_tasks), acc')).
Proof.
  revert task acc. induction use_tasks as [|t use_tasks IH]; intros task acc;
    [reflexivity|].
  cbn [fetch_tasks fmap list_fmap fetch_keys].
  destruct (fetch (contrib_key t head head_summary)) as [e|v]; [reflexivity|].
  cbn [mbind result_bind]. rewrite IH.
  destruct use_tasks as [|t' use_tasks]; [reflexivity|].
  change (last (t :: t' :: use_tasks)) with (last (t' :: use_tasks)).
  by rewrite (default_last_cons task t).
Qed.

(** The names and keys after fetching: the keys are appended in order and
    each one holds what [fetch] returned for it. *)
Lemma fetch_keys_result keys (acc : fetched A) names hyp :
  fetch_keys fetch keys acc = inr (names, hyp) ->
  names = acc.1 ++ keys /\
  (forall k, is_Some (hyp !! k) <-> k ∈ keys \/ is_Some (acc.2 !! k)) /\
  (forall k, k ∈ keys -> exists v, fetch k = inr v /\ hyp !! k = Some v).
Proof.
  revert acc. induction keys as [|key keys IH]; intros acc H.
  - injection H as H. destruct acc as [n0 h0]. injection H as <- <-.
    cbn. rewrite app_nil_r. split_and!; [done| |].
    + intros k. rewrite elem_of_nil. tauto.
    + intros k []%elem_of_nil.
  - cbn [fetch_keys] in H. destruct (fetch key) as [e|v] eqn:Hv; [discriminate|].
    cbn [mbind result_bind] in H.
    destruct (IH _ H) as (Hn & Hdom & Hval). cbn [fst snd] in *.
    split_and!.
    + by rewrite Hn, <- app_assoc.
    + intros k. rewrite Hdom, elem_of_cons, lookup_insert_is_Some.
      destruct (decide (key = k)) as [->|Hne]; [tauto|].
      split; [intros [?|[?|[_ ?]]]|intros [[?|?]|?]]; auto; congruence.
    + intros k [->|Hin]%elem_of_cons; [|by apply Hval].
      destruct (decide (key ∈ keys)) as [Hin|Hnin]; [by apply Hval|].
      exists v. split; [done|].
      clear IH Hdom Hval Hn. revert H. generalize (acc.1 ++ [key]).
      assert (<[key:=v]> acc.2 !! key = Some v) as Hk by apply lookup_insert_eq.
      revert Hk. generalize (<[key:=v]> acc.2).
      induction keys as [|key' keys IH]; intros h0 Hk n0 H.
      * by injection H as _ <-.
      * cbn [fetch_keys] in H. destruct (fetch key') as [e|v']; [discriminate|].
        cbn [mbind result_bind fst snd] in H.
        apply not_elem_of_cons in Hnin as [Hne Hnin].
        eapply (IH Hnin); [|exact H]. by rewrite lookup_insert_ne.
Qed.

Lemma fetch_keys_total keys (acc : fetched A) :
  Forall (fun k => exists v, fetch k = inr v) keys ->
  exists r, fetch_keys fetch keys acc = inr r.
Proof.
  revert acc. induction keys as [|key keys IH]; intros acc Hall.
  - by exists acc.
  - apply Forall_cons in Hall as [(v & Hv) Hall]. cbn [fetch_keys].
    rewrite Hv. apply IH, Hall.
Qed.

(** While [task] is not ['*'], named entries are fetched as they are. *)
Lemma expand_task_names_named tasks entries task (acc : fetched A) :
  forallb (is_named tasks) entries = true -> task <> "*" ->
  expand_task_names fetch tasks entries task acc = fetch_keys fetch entries acc.
Proof.
  revert task acc. induction entries as [|w entries IH]; intros task acc Hn Ht;
    [reflexivity|].
  cbn [forallb] in Hn. apply andb_prop in Hn as [Hw Hn].
  apply is_named_split in Hw as (t & h & s0 & Hs & Hstar & _).
  cbn [expand_task_names fetch_keys]. rewrite Hs.
  apply String.eqb_neq in Ht. rewrite Ht. cbn [fetch_tasks].
  rewrite (contrib_key_split w t h s0 Hs).
  destruct (fetch w) as [e|v]; [reflexivity|].
  cbn [mbind result_bind mret result_ret fst snd]. by apply IH.
Qed.

Lemma task_after_loop_last entries w :
  task_after_loop (entries ++ [w]) = entry_task w.
Proof. unfold task_after_loop. by rewrite last_snoc. Qed.

Lemma entry_task_star w : is_star w = true -> entry_task w = "*".
Proof.
  intros (h & s0 & Hs)%is_star_split. unfold entry_task. by rewrite Hs.
Qed.

Lemma entry_task_named tasks w : is_named tasks w = true -> entry_task w <> "*".
Proof.
  intros (t & h & s0 & Hs & Hstar & _)%is_named_split.
  unfold entry_task. by rewrite Hs.
Qed.

(** X12. A wildcard without a ['*'] entry: once the first loop has returned the
    set of the named tasks, the second loop fetches the entries of the
    wildcard as they are, each one once per occurrence and in order;
    [task_names] is then the list of the entries and [hyp_contrib] holds
    one score per entry. *)
Theorem named_wildcard_is_fetched_as_given :
  forall tasks contrib_wildcard subset,
    figure_subset_tasks (split "," contrib_wildcard) tasks (Some ∅)
      = inr (Some subset) ->
    fetch_contribs fetch tasks contrib_wildcard
      = fetch_keys fetch (split "," contrib_wildcard) ([], ∅) /\
    (Forall (fun w => exists v, fetch w = inr v) (split "," contrib_wildcard) ->
     exists r, fetch_contribs fetch tasks contrib_wildcard = inr r) /\
    forall task_names hyp_contrib,
      fetch_contribs fetch tasks contrib_wildcard = inr (task_names, hyp_contrib) ->
      task_names = split "," contrib_wildcard /\
      forall key, is_Some (hyp_contrib !! key) <-> key ∈ split "," contrib_wildcard.
Proof.
  intros tasks wc subset H.
  apply figure_subset_tasks_from in H as (named & stars & Happ & Hn & _ & Hr).
  destruct (decide (stars = [])) as [->|]; [|discriminate].
  rewrite app_nil_r in Happ.
  assert (fetch_contribs fetch tasks wc = fetch_keys fetch (split "," wc) ([], ∅)) as E.
  { unfold fetch_contribs. rewrite Happ. apply expand_task_names_named; [done|].
    pose proof (split_nonempty "," wc) as Hne. rewrite Happ in Hne.
    destruct (exists_last Hne) as (pre & w & ->).
    rewrite task_after_loop_last. apply (entry_task_named tasks).
    rewrite forallb_app in Hn. apply andb_prop in Hn as [_ Hn].
    cbn in Hn. by rewrite andb_true_r in Hn. }
  split_and!; [done| |].
  - rewrite E. apply fetch_keys_total.
  - intros names hyp Hf. rewrite E in Hf.
    destruct (fetch_keys_result _ _ _ _ Hf) as (-> & Hdom & _).
    split; [done|]. intros key. rewrite Hdom. cbn. rewrite lookup_empty.
    split; [intros [?|[? [=]]]|]; auto.
Qed.

(** X13. The wildcard ['*/head/summary'] alone, the default: every task of the
    contribution file is fetched for that head and summary, in the order
    of [tasks]. *)
Theorem star_wildcard_fetches_every_task :
  forall tasks contrib_wildcard w head head_summary,
    split "," contrib_wildcard = [w] ->
    split "/" w = ["*"; head; head_summary] ->
    figure_subset_tasks (split "," contrib_wildcard) tasks (Some ∅) = inr None /\
    fetch_contribs fetch tasks contrib_wildcard
      = fetch_keys fetch
          ((fun task => contrib_key task head head_summary) <$> tasks) ([], ∅).
Proof.
  intros tasks wc w h hs Hwc Hw. split.
  - rewrite Hwc. cbn. by rewrite Hw.
  - unfold fetch_contribs. rewrite Hwc.
    change [w] with ([] ++ [w]) at 2. rewrite task_after_loop_last.
    rewrite (entry_task_star w) by (apply is_star_split; eauto).
    cbn [expand_task_names]. rewrite Hw, String.eqb_refl, fetch_tasks_keys.
    destruct (fetch_keys fetch _ _) as [e|acc']; reflexivity.
Qed.

(** X14. A wildcard of named entries followed by one ['*'] entry passes the
    first loop. The second loop then tests the variable [task] the first
    loop left, which is ['*']: the first entry is fetched for every task of
    the contribution file whatever task it names, the other named entries
    are fetched as they are, and the ['*'] entry is not expanded: the key
    ['*/head/summary'] itself is asked of the contribution file. *)
Theorem star_after_names_expands_the_first_entry :
  forall tasks contrib_wildcard w1 named wstar task1 head1 head_summary1,
    split "," contrib_wildcard = w1 :: named ++ [wstar] ->
    split "/" w1 = [task1; head1; head_summary1] ->
    task1 <> "*" -> task1 ∈ tasks ->
    forallb (is_named tasks) named = true -> is_star wstar = true ->
    "*" ∉ tasks ->
    figure_subset_tasks (split "," contrib_wildcard) tasks (Some ∅) = inr None /\
    fetch_contribs fetch tasks contrib_wildcard
      = fetch_keys fetch
          (((fun task => contrib_key task head1 head_summary1) <$> tasks)
             ++ named ++ [wstar]) ([], ∅).
Proof.
  intros tasks wc w1 named wstar task1 head1 head_summary1
    Hwc Hw1 Hstar1 Hin1 Hn Hst Hnostar.
  assert (tasks <> []) as Hne by (intros ->; by apply elem_of_nil in Hin1).
  split.
  - apply figure_subset_tasks_from. exists (w1 :: named), [wstar].
    split_and!; [done| |by cbn; rewrite Hst|done].
    cbn [forallb]. rewrite Hn, andb_true_r. apply is_named_split. eauto 6.
  - unfold fetch_contribs. rewrite Hwc.
    rewrite app_comm_cons, task_after_loop_last.
    pose proof Hst as (h & s0 & Hs)%is_star_split.
    rewrite (entry_task_star wstar Hst).
    cbn [app expand_task_names]. rewrite Hw1, String.eqb_refl.
    rewrite fetch_tasks_keys, fetch_keys_app.
    destruct (fetch_keys fetch _ ([], ∅)) as [e|acc'] eqn:E; [reflexivity|].
    cbn [mbind result_bind mret result_ret fst snd].
    destruct (exists_last Hne) as (pre & tlast & ->).
    rewrite last_snoc. cbn [default].
    assert (tlast <> "*") as Hlast.
    { intros ->. apply Hnostar, elem_of_app. right. apply elem_of_cons. by left. }
    rewrite fetch_keys_app.
    assert (forall entries task (acc : fetched A),
              forallb (is_named (pre ++ [tlast])) entries = true -> task <> "*" ->
              expand_task_names fetch (pre ++ [tlast]) (entries ++ [wstar]) task acc
              = (acc1 ← fetch_keys fetch entries acc; fetch_keys fetch [wstar] acc1))
      as Hrest.
    { induction entries as [|w entries IH]; intros task acc Hall Ht.
      - cbn [app expand_task_names fetch_keys]. rewrite Hs.
        apply String.eqb_neq in Ht. rewrite Ht. cbn [fetch_tasks].
        rewrite (contrib_key_split wstar "*" h s0 Hs).
        destruct (fetch wstar) as [e|v]; reflexivity.
      - cbn [forallb] in Hall. apply andb_prop in Hall as [Hw Hall].
        apply is_named_split in Hw as (t & h' & s' & Hs' & Hstar' & _).
        cbn [app expand_task_names fetch_keys]. rewrite Hs'.
        apply String.eqb_neq in Ht. rewrite Ht. cbn [fetch_tasks].
        rewrite (contrib_key_split w t h' s' Hs').
        destruct (fetch w) as [e|v]; [reflexivity|].
        cbn [mbind result_bind mret result_ret fst snd]. by apply IH. }
    by apply Hrest.
Qed.

End fetch_facts.

(** *** The default contribution of [cwm_scan] *)

(** X15. For every wildcard [bpnet_modisco_run] accepted (and saved in
    [modisco-run.kwargs.json]), the default [contribution] of [cwm_scan]
    exists, so the subscript does not raise: it is the head and the
    summary of the first entry, ['head/summary']. *)
Theorem default_contribution_of_accepted_wildcard :
  forall contrib_wildcard tasks r,
    figure_subset_tasks (split "," contrib_wildcard) tasks (Some ∅) = inr r ->
    exists w task head head_summary,
      split "," contrib_wildcard !! 0%nat = Some w /\
      split "/" w = [task; head; head_summary] /\
      default_contribution contrib_wildcard = Some (head +:+ "/" +:+ head_summary).
Proof.
  intros wc tasks r H. apply figure_subset_tasks_ok in H.
  pose proof (split_nonempty "," wc) as Hne.
  unfold default_contribution.
  destruct (split "," wc) as [|w rest]; [done|].
  apply Forall_cons in H as [(task & head & head_summary & Hs & _) _].
  exists w, task, head, head_summary. split_and!; [done|done|].
  cbn. by rewrite split1_split, Hs.
Qed.

Lemma prefix_refl s : String.prefix s s = true.
Proof.
  induction s as [|c s IH]; [reflexivity|]. cbn.
  by destruct (ascii_dec c c).
Qed.

Lemma replace_from_skip old new s :
  replace_from old new (String.length s) s = EmptyString.
Proof. induction s as [|c s IH]; [reflexivity|exact IH]. Qed.

Lemma replace_from_no_sep old' new task rest :
  contains "/" task = false ->
  replace_from (String "/" old') new 0 (task +:+ rest)
    = task +:+ replace_from (String "/" old') new 0 rest.
Proof.
  induction task as [|c task IH]; intros Hc; [reflexivity|].
  cbn [contains] in Hc. apply orb_false_elim in Hc as [Hc Htask].
  apply Ascii.eqb_neq in Hc.
  change (String c task +:+ rest) with (String c (task +:+ rest)).
  change (String c task +:+ replace_from (String "/" old') new 0 rest)
    with (String c (task +:+ replace_from (String "/" old') new 0 rest)).
  cbn [replace_from String.prefix].
  destruct (ascii_dec "/" c) as [Heq|_]; [by subst c|].
  by rewrite (IH Htask).
Qed.

Lemma prune_task_key contribution task :
  contains "/" task = false ->
  prune_task contribution (task +:+ String "/" contribution) = task.
Proof.
  intros Hc. unfold prune_task. rewrite (replace_from_no_sep _ _ _ _ Hc).
  cbn [replace_from]. rewrite prefix_refl.
  cbn [String.length Nat.sub]. rewrite Nat.sub_0_r, replace_from_skip.
  change (EmptyString +:+ EmptyString) with EmptyString.
  clear. induction task as [|c task IH]; [reflexivity|].
  change (String c (task +:+ EmptyString) = String c task). by f_equal.
Qed.

(** X20. The task names [cwm_scan] prunes. For a wildcard whose first entry is
    [task1/head/summary], the default [contribution] is [head/summary],
    and removing ["/" + contribution] from a key
    [f"{task}/{head}/{summary}"] that [bpnet_modisco_run] built for that
    entry gives back [task], for every task name without a ['/']. *)
Theorem pruning_recovers_the_task :
  forall contrib_wildcard w task1 head head_summary task,
    split "," contrib_wildcard !! 0%nat = Some w ->
    split "/" w = [task1; head; head_summary] ->
    contains "/" task = false ->
    exists contribution,
      default_contribution contrib_wildcard = Some contribution /\
      prune_task contribution (contrib_key task head head_summary) = task.
Proof.
  intros wc w task1 h hs task Hw Hs Hc.
  exists (h +:+ "/" +:+ hs). split.
  - unfold default_contribution.
    destruct (split "," wc) as [|w' rest]; [discriminate|].
    injection Hw as ->. cbn. by rewrite split1_split, Hs.
  - by apply prune_task_key.
Qed.

(** *** Resuming [modisco_report_all] *)

Lemma M_bind_ok {S A B} (m : M S A) (k : A -> M S B) s s' a :
  m s = (s', inr a) -> (m ≫= k) s = k a s'.
Proof. unfold mbind, M_bind. by intros ->. Qed.

Lemma M_bind_raise {S A B} (m : M S A) (k : A -> M S B) s s' e :
  m s = (s', inl e) -> (m ≫= k) s = (s', inl e).
Proof. unfold mbind, M_bind. by intros ->. Qed.

Lemma M_bind_assoc {S A B C} (m : M S A) (f : A -> M S B) (g : B -> M S C) s :
  ((m ≫= f) ≫= g) s = (m ≫= fun x => f x ≫= g) s.
Proof. unfold mbind, M_bind. by destruct (m s) as [s' [e|a]]. Qed.

Lemma done_step modisco_dir force c w :
  done (set_cmd (command_name c) (report_tracker modisco_dir force)) w
    = (w, inr (step_done modisco_dir force w c)).
Proof. reflexivity. Qed.

Section steps_facts.
Variable perform : command -> M world unit.

Lemma conditional_run_done modisco_dir force c w :
  step_done modisco_dir force w c = true ->
  conditional_run perform (report_tracker modisco_dir force) c w = (w, inr tt).
Proof.
  intros Hd. unfold conditional_run.
  rewrite (M_bind_ok _ _ _ _ _ (done_step modisco_dir force c w)).
  by rewrite Hd.
Qed.

Lemma conditional_run_raise modisco_dir force c w w' e :
  step_done modisco_dir force w c = false ->
  perform c (logged c w) = (w', inl e) ->
  conditional_run perform (report_tracker modisco_dir force) c w = (w', inl e).
Proof.
  intros Hd He. unfold conditional_run.
  rewrite (M_bind_ok _ _ _ _ _ (done_step modisco_dir force c w)).
  rewrite Hd. cbn [negb]. apply M_bind_raise. exact He.
Qed.

Lemma run_commands_done modisco_dir force cs w :
  Forall (fun c => step_done modisco_dir force w c = true) cs ->
  run_commands perform (report_tracker modisco_dir force) cs w = (w, inr tt).
Proof.
  induction cs as [|c cs IH]; intros Hall; [reflexivity|].
  apply Forall_cons in Hall as [Hc Hall]. cbn [run_commands].
  rewrite (M_bind_ok _ _ _ _ _ (conditional_run_done modisco_dir force c w Hc)).
  by apply IH.
Qed.

Lemma run_commands_raise modisco_dir force pre c post w w' e :
  Forall (fun c' => step_done modisco_dir force w c' = true) pre ->
  step_done modisco_dir force w c = false ->
  perform c (logged c w) = (w', inl e) ->
  run_commands perform (report_tracker modisco_dir force) (pre ++ c :: post) w
    = (w', inl e).
Proof.
  intros Hpre Hc He. induction pre as [|c' pre IH]; cbn [app run_commands].
  - apply M_bind_raise. by apply conditional_run_raise.
  - apply Forall_cons in Hpre as [Hc' Hpre].
    rewrite (M_bind_ok _ _ _ _ _ (conditional_run_done modisco_dir force c' w Hc')).
    by apply IH.
Qed.

Lemma run_commands_app cr cs1 cs2 w :
  run_commands perform cr (cs1 ++ cs2) w
    = (run_commands perform cr cs1;; run_commands perform cr cs2) w.
Proof.
  revert w. induction cs1 as [|c cs1 IH]; intros w; [reflexivity|].
  cbn [app run_commands]. unfold mbind, M_bind.
  destruct (conditional_run perform cr c w) as [w1 [e|[]]]; [reflexivity|].
  apply IH.
Qed.

(** With patterns, [modisco_report_all] is: load the [ContribFile] if one
    of the three commands that take it is pending, then go through the
    commands. *)
Lemma modisco_report_all_steps mr_patterns load_contribsf
    modisco_dir scan_instances force w w1 contrib_scores all_patterns :
  read_json_contrib_file (modisco_dir ++ ["modisco-run.kwargs.json"]) w
    = (w, inr contrib_scores) ->
  mr_patterns (modisco_dir ++ ["modisco.h5"]) w = (w1, inr all_patterns) ->
  all_patterns <> [] ->
  modisco_report_all mr_patterns load_contribsf perform modisco_dir
    scan_instances force w
  = ((if contribsf_needed modisco_dir force w1
      then load_contribsf modisco_dir else mret tt);;
     run_commands perform (report_tracker modisco_dir force)
       (report_commands scan_instances)) w1.
Proof.
  intros Hread Hpat Hne. unfold modisco_report_all.
  rewrite (M_bind_ok _ _ _ _ _ Hread), (M_bind_ok _ _ _ _ _ Hpat).
  rewrite bool_decide_eq_false_2 by (by destruct all_patterns).
  fold (report_tracker modisco_dir force).
  change "modisco_plot" with (command_name modisco_plot).
  change "modisco_cluster_patterns" with (command_name modisco_cluster_patterns).
  change "modisco_enrich_patterns" with (command_name modisco_enrich_patterns).
  rewrite (M_bind_ok _ _ _ _ _ (done_step modisco_dir force modisco_plot w1)).
  unfold contribsf_needed.
  assert (forall (m : M world unit) w2,
            (m;; conditional_run perform (report_tracker modisco_dir force) modisco_plot;;
             conditional_run perform (report_tracker modisco_dir force) modisco_report;;
             conditional_run perform (report_tracker modisco_dir force) modisco_table;;
             conditional_run perform (report_tracker modisco_dir force)
               modisco_cluster_patterns;;
             conditional_run perform (report_tracker modisco_dir force)
               modisco_enrich_patterns;;
             (if scan_instances then
                conditional_run perform (report_tracker modisco_dir force)
                  modisco_centroid_seqlet_matches;;
                conditional_run perform (report_tracker modisco_dir force) cwm_scan
              else mret tt);;
             conditional_run perform (report_tracker modisco_dir force) modisco2bed) w2
            = (m;; run_commands perform (report_tracker modisco_dir force)
                     (report_commands scan_instances)) w2) as Hseq.
  { intros m w2. unfold mbind, M_bind.
    destruct (m w2) as [w3 [e|[]]]; [reflexivity|].
    unfold report_commands.
    destruct scan_instances; cbn [app run_commands]; unfold mbind, M_bind;
      cbn [mret M_ret];
      repeat match goal with
      | |- context [conditional_run perform ?cr ?c ?w] =>
          destruct (conditional_run perform cr c w) as [? [?|[]]]; try reflexivity
      end. }
  destruct (step_done modisco_dir force w1 modisco_plot); cbn [negb orb].
  - rewrite M_bind_assoc.
    rewrite (M_bind_ok _ _ _ _ _
               (done_step modisco_dir force modisco_cluster_patterns w1)).
    destruct (step_done modisco_dir force w1 modisco_cluster_patterns); cbn [negb orb].
    + rewrite M_bind_assoc.
      rewrite (M_bind_ok _ _ _ _ _
                 (done_step modisco_dir force modisco_enrich_patterns w1)).
      apply Hseq.
    + apply Hseq.
  - apply Hseq.
Qed.

End steps_facts.

Lemma read_json_contrib_file_ok p w kwargs out :
  lookup_node (fs w) p = Some (File (KwargsJson kwargs out)) ->
  read_json_contrib_file p w = (w, inr (contrib_file kwargs)).
Proof. unfold read_json_contrib_file. by intros ->. Qed.

(** X16. A report that is complete is not computed again. When the modisco
    result has patterns, [force] is off and the marker of every command of
    the report exists, [modisco_report_all] returns after opening the
    result: it does not load the [ContribFile], runs no command and writes
    no marker. *)
Theorem completed_report_is_not_rerun :
  forall mr_patterns load_contribsf perform modisco_dir scan_instances
         (w w1 : world) kwargs out all_patterns,
    lookup_node (fs w) (modisco_dir ++ ["modisco-run.kwargs.json"])
      = Some (File (KwargsJson kwargs out)) ->
    mr_patterns (modisco_dir ++ ["modisco.h5"]) w = (w1, inr all_patterns) ->
    all_patterns <> [] ->
    (forall c, c ∈ report_commands scan_instances ->
               path_exists (fs w1) (marker modisco_dir c) = true) ->
    modisco_report_all mr_patterns load_contribsf perform modisco_dir
      scan_instances false w = (w1, inr tt).
Proof.
  intros mr_patterns load_contribsf perform modisco_dir scan_instances
    w w1 kwargs out all_patterns Hkw Hpat Hne Hall.
  assert (forall c, c ∈ report_commands scan_instances ->
                    step_done modisco_dir false w1 c = true) as Hdone.
  { intros c Hc. unfold step_done. by rewrite (Hall c Hc). }
  rewrite (modisco_report_all_steps perform mr_patterns load_contribsf
             modisco_dir scan_instances false w w1 _ all_patterns
             (read_json_contrib_file_ok _ _ _ _ Hkw) Hpat Hne).
  assert (contribsf_needed modisco_dir false w1 = false) as ->.
  { unfold contribsf_needed.
    rewrite !Hdone; [done|..]; unfold report_commands;
      rewrite !elem_of_app, !elem_of_cons; tauto. }
  rewrite (M_bind_ok _ _ w1 w1 tt) by reflexivity.
  apply run_commands_done. by apply Forall_forall.
Qed.

(** X17. A command that fails stops the report and is not marked as done. When
    the commands before [c] are done, [c] is pending and raises,
    [modisco_report_all] ends with that exception in the world the command
    left: no marker is written for [c] and no later command runs. *)
Theorem failing_command_stops_the_report :
  forall mr_patterns load_contribsf perform modisco_dir scan_instances force
         (w w1 w2 w3 : world) kwargs out all_patterns pre c post e,
    lookup_node (fs w) (modisco_dir ++ ["modisco-run.kwargs.json"])
      = Some (File (KwargsJson kwargs out)) ->
    mr_patterns (modisco_dir ++ ["modisco.h5"]) w = (w1, inr all_patterns) ->
    all_patterns <> [] ->
    (if contribsf_needed modisco_dir force w1
     then load_contribsf modisco_dir w1 else (w1, inr tt)) = (w2, inr tt) ->
    report_commands scan_instances = pre ++ c :: post ->
    Forall (fun c' => step_done modisco_dir force w2 c' = true) pre ->
    step_done modisco_dir force w2 c = false ->
    perform c (logged c w2) = (w3, inl e) ->
    modisco_report_all mr_patterns load_contribsf perform modisco_dir
      scan_instances force w = (w3, inl e).
Proof.
  intros mr_patterns load_contribsf perform modisco_dir scan_instances force
    w w1 w2 w3 kwargs out all_patterns pre c post e
    Hkw Hpat Hne Hload Hcs Hpre Hc He.
  rewrite (modisco_report_all_steps perform mr_patterns load_contribsf
             modisco_dir scan_instances force w w1 _ all_patterns
             (read_json_contrib_file_ok _ _ _ _ Hkw) Hpat Hne).
  rewrite (M_bind_ok _ _ w1 w2 tt).
  - rewrite Hcs. by apply run_commands_raise.
  - by destruct (contribsf_needed modisco_dir force w1).
Qed.

(** *** What a run leaves for [load_ranges] *)

Section ranges_facts.
Context {R : Type}.
Variable cf_get_ranges : path -> string -> M world R.


(** X19. The included samples are saved under one name and loaded under
    another: [bpnet_modisco_run] saves them to
    [modisco-run.subset-contrib-file.npy], [load_included_samples] reads
    [modisco-run.subset-contrib-file.npz]. In an output directory that
    holds only what the run wrote, [load_ranges] raises
    [FileNotFoundError] before it reads anything else. *)
Theorem saved_samples_are_not_found :
  forall (a : run_args) (w w1 w2 : world) include_samples,
    lookup_node (fs w) (output_dir a ++ ["modisco-run.subset-contrib-file.npz"])
      = None ->
    save_kwargs a w = (w1, inr tt) ->
    save_included_samples a include_samples w1 = (w2, inr tt) ->
    lookup_node (fs w2) (output_dir a ++ ["modisco-run.subset-contrib-file.npy"])
      = Some (File (Bytes include_samples)) /\
    load_included_samples (output_dir a) w2 = (w2, inl FileNotFoundError) /\
    load_ranges cf_get_ranges (output_dir a) w2 = (w2, inl FileNotFoundError).
Proof.
  intros a w w1 w2 include_samples Hnone Hkw Hsave.
  unfold save_kwargs, write_json in Hkw. apply on_fs_inv in Hkw as (Hkw & _).
  unfold save_included_samples, np_save in Hsave.
  apply on_fs_inv in Hsave as (Hsave & _).
  assert (lookup_node (fs w2)
            (output_dir a ++ ["modisco-run.subset-contrib-file.npz"]) = None) as Hnpz.
  { rewrite (write_fs_other _ _ _ _ _ Hsave),
            (write_fs_other _ _ _ _ _ Hkw); [done|..];
      unfold kwargs_json_file, output_filter_npy; intros Heq;
      apply app_inv_head in Heq; discriminate. }
  assert (load_included_samples (output_dir a) w2 = (w2, inl FileNotFoundError))
    as Hload.
  { unfold load_included_samples, np_load. by rewrite Hnpz. }
  split_and!.
  - exact (write_fs_at _ _ _ _ Hsave).
  - exact Hload.
  - unfold load_ranges. by apply M_bind_raise.
Qed.

End ranges_facts.

End ModiscoMoreFacts.

(** ** The further properties on concrete runs *)

Module DemoMoreFacts.
Import Swag SwagMore Modisco ModiscoMore Demo DemoMore.
Import SwagFacts SwagMoreFacts ModiscoFacts ModiscoMoreFacts.

#[local] Open Scope Qc_scope.





Lemma atomic_witness :
  (on_epoch_end 1 three_weights (on_epochs first_epoch (init "swag" 0 2)).1).1
    = (on_epochs first_epoch (init "swag" 0 2)).1.
Proof.
  apply (on_epoch_end_atomic_after_init "swag" 0%Z 2%Z first_epoch
           (on_epochs first_epoch (init "swag" 0 2)).1
           (on_epoch_end 1 three_weights (on_epochs first_epoch (init "swag" 0 2)).1).1
           1%Z three_weights ValueError).
  - vm_compute. reflexivity.
  - vm_compute. reflexivity.
Defined.

Lemma stats_aligned_witness :
  tensor_shape <$> moments (on_epochs five_epochs (init "swag" 0 2)).1
    = tensor_shape <$> mean (on_epochs five_epochs (init "swag" 0 2)).1 /\
  length (moments (on_epochs five_epochs (init "swag" 0 2)).1)
    = length (mean (on_epochs five_epochs (init "swag" 0 2)).1) /\
  (length (mean (on_epochs five_epochs (init "swag" 0 2)).1) <= 2000)%nat.
Proof.
  apply (stats_aligned_after_init "swag" 0%Z 2%Z five_epochs).
  vm_compute. reflexivity.
Defined.


Lemma no_rank_witness :
  cols (on_epochs five_epochs (init "swag" 0 0)).1 = [] /\
  cols_json (on_epochs five_epochs (init "swag" 0 0)).1 = inr (JArray []).
Proof.
  apply (no_deviation_is_kept_without_rank "swag" 0%Z 0%Z five_epochs).
  - lia.
  - vm_compute. reflexivity.
Defined.

Lemma only_its_files_witness :
  denied (on_train_end one_epoch diag_denied).1 = denied diag_denied /\
  forall path,
    path <> mean_path one_epoch -> path <> diag_path one_epoch ->
    path <> cols_path one_epoch ->
    files (on_train_end one_epoch diag_denied).1 !! path = files diag_denied !! path.
Proof.
  apply (on_train_end_touches_only_its_files one_epoch diag_denied
           (on_train_end one_epoch diag_denied).1
           (on_train_end one_epoch diag_denied).2).
  by destruct (on_train_end one_epoch diag_denied).
Defined.

Lemma name_after_star_witness :
  figure_subset_tasks ([] ++ "*/profile/wn" :: [] ++ "Oct4/counts/pre-act" :: [])
    ["Oct4"; "Sox2"] (Some ∅) = inl AttributeError.
Proof.
  apply (name_after_star_raises_AttributeError ["Oct4"; "Sox2"] [] "*/profile/wn" []
           "Oct4/counts/pre-act" [] (Some ∅)).
  - reflexivity.
  - reflexivity.
  - reflexivity.
  - vm_compute. reflexivity.
Defined.

Lemma named_wildcard_witness :
  fetch_contribs echo ["Oct4"; "Sox2"] "Oct4/profile/wn,Sox2/counts/pre-act"
    = fetch_keys echo (split "," "Oct4/profile/wn,Sox2/counts/pre-act") ([], ∅) /\
  (Forall (fun w => exists v, echo w = inr v)
     (split "," "Oct4/profile/wn,Sox2/counts/pre-act") ->
   exists r,
     fetch_contribs echo ["Oct4"; "Sox2"] "Oct4/profile/wn,Sox2/counts/pre-act"
       = inr r) /\
  forall task_names hyp_contrib,
    fetch_contribs echo ["Oct4"; "Sox2"] "Oct4/profile/wn,Sox2/counts/pre-act"
      = inr (task_names, hyp_contrib) ->
    task_names = split "," "Oct4/profile/wn,Sox2/counts/pre-act" /\
    forall key, is_Some (hyp_contrib !! key)
                <-> key ∈ split "," "Oct4/profile/wn,Sox2/counts/pre-act".
Proof.
  apply (named_wildcard_is_fetched_as_given echo ["Oct4"; "Sox2"]
           "Oct4/profile/wn,Sox2/counts/pre-act"
           ({["Sox2"]} ∪ ({["Oct4"]} ∪ ∅))).
  vm_compute. reflexivity.
Defined.

Lemma star_wildcard_witness :
  figure_subset_tasks (split "," "*/profile/wn") ["Oct4"; "Sox2"] (Some ∅)
    = inr None /\
  fetch_contribs echo ["Oct4"; "Sox2"] "*/profile/wn"
    = fetch_keys echo
        ((fun task => contrib_key task "profile" "wn") <$> ["Oct4"; "Sox2"]) ([], ∅).
Proof.
  apply (star_wildcard_fetches_every_task echo ["Oct4"; "Sox2"] "*/profile/wn"
           "*/profile/wn" "profile" "wn").
  - reflexivity.
  - reflexivity.
Defined.

Lemma star_after_names_witness :
  figure_subset_tasks (split "," "Oct4/profile/wn,*/counts/pre-act")
    ["Oct4"; "Sox2"] (Some ∅) = inr None /\
  fetch_contribs echo ["Oct4"; "Sox2"] "Oct4/profile/wn,*/counts/pre-act"
    = fetch_keys echo
        (((fun task => contrib_key task "profile" "wn") <$> ["Oct4"; "Sox2"])
           ++ [] ++ ["*/counts/pre-act"]) ([], ∅).
Proof.
  apply (star_after_names_expands_the_first_entry echo ["Oct4"; "Sox2"]
           "Oct4/profile/wn,*/counts/pre-act" "Oct4/profile/wn" []
           "*/counts/pre-act" "Oct4" "profile" "wn").
  - reflexivity.
  - reflexivity.
  - discriminate.
  - apply elem_of_cons. by left.
  - reflexivity.
  - reflexivity.
  - intros Hin. apply elem_of_cons in Hin as [Heq|Hin]; [discriminate|].
    apply elem_of_cons in Hin as [Heq|Hin]; [discriminate|].
    by apply elem_of_nil in Hin.
Defined.

Lemma default_contribution_witness :
  exists w task head head_summary,
    split "," "Oct4/profile/wn,*/counts/pre-act" !! 0%nat = Some w /\
    split "/" w = [task; head; head_summary] /\
    default_contribution "Oct4/profile/wn,*/counts/pre-act"
      = Some (head +:+ "/" +:+ head_summary).
Proof.
  apply (default_contribution_of_accepted_wildcard
           "Oct4/profile/wn,*/counts/pre-act" ["Oct4"; "Sox2"] None).
  vm_compute. reflexivity.
Defined.

Lemma pruning_witness :
  exists contribution,
    default_contribution "Oct4/profile/wn,*/counts/pre-act" = Some contribution /\
    prune_task contribution (contrib_key "Sox2" "profile" "wn") = "Sox2".
Proof.
  apply (pruning_recovers_the_task "Oct4/profile/wn,*/counts/pre-act"
           "Oct4/profile/wn" "Oct4" "profile" "wn" "Sox2").
  - reflexivity.
  - reflexivity.
  - reflexivity.
Defined.

Lemma completed_report_witness :
  modisco_report_all one_pattern no_contribsf failing_plot ["out"] false false
    completed_report = (completed_report, inr tt).
Proof.
  apply (completed_report_is_not_rerun one_pattern no_contribsf failing_plot
           ["out"] false completed_report completed_report unknown_task_args
           ["out"; "modisco-run.subset-contrib-file.npy"]
           ["metacluster_0/pattern_0"]).
  - vm_compute. reflexivity.
  - reflexivity.
  - discriminate.
  - intros c Hc. unfold report_commands in Hc. cbn [app] in Hc.
    repeat (apply elem_of_cons in Hc as [->|Hc]; [vm_compute; reflexivity|]).
    by apply elem_of_nil in Hc.
Defined.

Lemma failing_command_witness :
  modisco_report_all one_pattern no_contribsf failing_plot ["out"] false false
    with_seqlets_dir = (logged modisco_plot with_seqlets_dir, inl ValueError).
Proof.
  apply (failing_command_stops_the_report one_pattern no_contribsf failing_plot
           ["out"] false false with_seqlets_dir with_seqlets_dir with_seqlets_dir
           (logged modisco_plot with_seqlets_dir) unknown_task_args
           ["out"; "modisco-run.subset-contrib-file.npy"]
           ["metacluster_0/pattern_0"] [] modisco_plot
           [modisco_report; modisco_table; modisco_cluster_patterns;
            modisco_enrich_patterns; modisco2bed] ValueError).
  - vm_compute. reflexivity.
  - reflexivity.
  - discriminate.
  - vm_compute. reflexivity.
  - reflexivity.
  - constructor.
  - vm_compute. reflexivity.
  - reflexivity.
Defined.


Lemma samples_not_found_witness :
  lookup_node
    (fs (save_included_samples unknown_task_args "1101" after_save).1)
    (output_dir unknown_task_args ++ ["modisco-run.subset-contrib-file.npy"])
    = Some (File (Bytes "1101")) /\
  load_included_samples (output_dir unknown_task_args)
    (save_included_samples unknown_task_args "1101" after_save).1
    = ((save_included_samples unknown_task_args "1101" after_save).1,
       inl FileNotFoundError) /\
  load_ranges samples_as_ranges (output_dir unknown_task_args)
    (save_included_samples unknown_task_args "1101" after_save).1
    = ((save_included_samples unknown_task_args "1101" after_save).1,
       inl FileNotFoundError).
Proof.
  apply (saved_samples_are_not_found samples_as_ranges unknown_task_args
           after_setup after_save
           (save_included_samples unknown_task_args "1101" after_save).1 "1101").
  - vm_compute. reflexivity.
  - vm_compute. reflexivity.
  - vm_compute. reflexivity.
Defined.

End DemoMoreFacts.
